(** * SWE-Flow-Trace: call tracer and test orchestration

    A shallow embedding of [sweflow_trace/python/hooks.py] and
    [sweflow_trace/python/trace.py], followed by the properties of the
    tracer ([CallTracer]) and of the orchestration functions
    ([collect_tests], [get_test_func_id], [trace_test],
    [generate_test_traces]).

    Python [str] values are modelled as [string]; a character stands for a
    code point below 256.  Python [int] is [Z]; [None] in an optional
    position is [None]. *)

From Stdlib Require Import String Ascii List ZArith Bool Lia.
From Stdlib Require Import Numbers.DecimalString Numbers.DecimalZ.
From stdpp Require Import base decidable gmap strings.
Import ListNotations.

Local Open Scope string_scope.
Local Open Scope list_scope.

(* ===================================================================== *)
(** * Part I: the model                                                    *)
(* ===================================================================== *)

(** ** Python built-ins and standard-library functions used by the code *)

Module Py.

(** Characters that cannot be written inside a literal. *)
Definition dquote : ascii := ascii_of_nat 34.
Definition newline : ascii := ascii_of_nat 10.

(** [s.startswith(p)] and [s.endswith(p)]. *)
Definition startswith (s p : string) : bool := String.prefix p s.

Definition endswith (s p : string) : bool :=
  (String.length p <=? String.length s)%nat &&
  String.eqb (substring (String.length s - String.length p) (String.length p) s) p.

(** [str(n)] for an [int]. *)
Definition str_of_int (n : Z) : string := NilEmpty.string_of_int (Z.to_int n).

(** [sep.join(parts)]. *)
Fixpoint join (sep : string) (parts : list string) : string :=
  match parts with
  | [] => EmptyString
  | [p] => p
  | p :: ps => String.append p (String.append sep (join sep ps))
  end.

(** [s.split(sep)] for a non-empty separator: cut at every leftmost,
    non-overlapping occurrence of [sep].  [skip] counts the characters of
    an occurrence that are still to be consumed. *)
Definition cons_head (c : ascii) (ps : list string) : list string :=
  match ps with
  | [] => [String c EmptyString]
  | p :: ps' => String c p :: ps'
  end.

Fixpoint split_from (sep : string) (skip : nat) (s : string) : list string :=
  match s with
  | EmptyString => [EmptyString]
  | String c s' =>
      match skip with
      | S k => split_from sep k s'
      | O =>
          if String.prefix sep s
          then EmptyString :: split_from sep (String.length sep - 1) s'
          else cons_head c (split_from sep 0 s')
      end
  end.

Definition split (s sep : string) : list string := split_from sep 0 s.

(** [re.sub(r"\[.*?\]", "", s)]: delete, left to right, every shortest
    span that opens with a left bracket and closes with the first right
    bracket after it; the dot does not match a line feed, so a span cannot
    cross one. *)
Fixpoint close_index (s : string) : option nat :=
  match s with
  | EmptyString => None
  | String c r =>
      if Ascii.eqb c "]" then Some 0
      else if Ascii.eqb c newline then None
      else option_map S (close_index r)
  end.

Fixpoint strip_from (skip : nat) (s : string) : string :=
  match s with
  | EmptyString => EmptyString
  | String c r =>
      match skip with
      | S k => strip_from k r
      | O =>
          if Ascii.eqb c "["
          then match close_index r with
               | Some n => strip_from (S n) r
               | None => String c (strip_from 0 r)
               end
          else String c (strip_from 0 r)
      end
  end.

Definition re_sub_brackets (s : string) : string := strip_from 0 s.

(** [str.isidentifier()]: a non-empty string whose first character is an
    underscore or has the property XID_Start and whose other characters
    have XID_Continue (tables restricted to code points below 256). *)
Definition in_range (lo hi : nat) (c : ascii) : bool :=
  let n := nat_of_ascii c in (lo <=? n)%nat && (n <=? hi)%nat.

Definition xid_start (c : ascii) : bool :=
  in_range 65 90 c || in_range 97 122 c ||
  in_range 170 170 c || in_range 181 181 c || in_range 186 186 c ||
  in_range 192 214 c || in_range 216 246 c || in_range 248 255 c.

Definition xid_continue (c : ascii) : bool :=
  xid_start c || in_range 48 57 c || Ascii.eqb c "_" || in_range 183 183 c.

Fixpoint all_chars (p : ascii -> bool) (s : string) : bool :=
  match s with
  | EmptyString => true
  | String c r => p c && all_chars p r
  end.

Definition isidentifier (s : string) : bool :=
  match s with
  | EmptyString => false
  | String c r => (xid_start c || Ascii.eqb c "_") && all_chars xid_continue r
  end.

(** [keyword.kwlist] and [keyword.iskeyword]. *)
Definition kwlist : list string :=
  [ "False"; "None"; "True"; "and"; "as"; "assert"; "async"; "await";
    "break"; "class"; "continue"; "def"; "del"; "elif"; "else"; "except";
    "finally"; "for"; "from"; "global"; "if"; "import"; "in"; "is";
    "lambda"; "nonlocal"; "not"; "or"; "pass"; "raise"; "return"; "try";
    "while"; "with"; "yield" ].

Definition iskeyword (s : string) : bool := existsb (String.eqb s) kwlist.

(** Exceptions and results.  Every constructor of [exn] is a subclass of
    Python's [Exception]. *)
Inductive exn : Set :=
| ValueError | KeyError | IndexError | TypeError | OSError
| JSONDecodeError | TimeoutExpired | PytestFailed.

Inductive result (A : Type) : Type :=
| Ok (a : A)
| Raise (e : exn).
Arguments Ok {A} a.
Arguments Raise {A} e.

Definition bind {A B} (r : result A) (k : A -> result B) : result B :=
  match r with
  | Ok a => k a
  | Raise e => Raise e
  end.

(** *** [posixpath] *)

Definition is_empty (s : string) : bool :=
  match s with EmptyString => true | _ => false end.

Definition isabs (s : string) : bool := startswith s "/".

(** [os.path.join(a, b)]. *)
Definition path_join (a b : string) : string :=
  if startswith b "/" then b
  else if is_empty a || endswith a "/" then String.append a b
  else String.append a (String "/" b).

Definition last_is (t : string) (l : list string) : bool :=
  match last l with
  | Some x => String.eqb x t
  | None => false
  end.

Definition is_nil (l : list string) : bool :=
  match l with [] => true | _ => false end.

(** One turn of the loop of [normpath] over the components. *)
Definition norm_step (initial_slashes : nat) (new_comps : list string)
    (comp : string) : list string :=
  if is_empty comp || String.eqb comp "." then new_comps
  else if negb (String.eqb comp "..")
          || ((initial_slashes =? 0)%nat && is_nil new_comps)
          || (negb (is_nil new_comps) && last_is ".." new_comps)
       then new_comps ++ [comp]
       else if negb (is_nil new_comps) then removelast new_comps
            else new_comps.

Fixpoint slashes (n : nat) : string :=
  match n with
  | O => EmptyString
  | S k => String "/" (slashes k)
  end.

Definition initial_slashes (path : string) : nat :=
  if startswith path "/"
  then if startswith path "//" && negb (startswith path "///") then 2 else 1
  else 0.

(** [os.path.normpath(path)]. *)
Definition normpath (path : string) : string :=
  if is_empty path then "."
  else
    let n := initial_slashes path in
    let comps := fold_left (norm_step n) (split path "/") [] in
    let p := String.append (slashes n) (join "/" comps) in
    if is_empty p then "." else p.

(** [os.path.abspath(path)], with [cwd] the value of [os.getcwd()]. *)
Definition abspath (cwd path : string) : string :=
  normpath (if isabs path then path else path_join cwd path).

(** *** [pathlib] (POSIX flavour) *)

(** The root of a path: two leading slashes are kept, any other number
    collapses to one. *)
Definition path_root (s : string) : string := slashes (initial_slashes s).

(** The components after the root: empty and single-dot components are
    dropped, double dots are kept. *)
Definition path_tail (s : string) : list string :=
  List.filter (fun x => negb (is_empty x) && negb (String.eqb x "."))
              (split s "/").

Fixpoint is_prefix_of (a b : list string) : bool :=
  match a, b with
  | [], _ => true
  | x :: a', y :: b' => String.eqb x y && is_prefix_of a' b'
  | _ :: _, [] => false
  end.

(** [str(p)] of a path without root. *)
Definition relative_str (tail : list string) : string :=
  match tail with
  | [] => "."
  | _ => join "/" tail
  end.

(** [str(Path(self).relative_to(other))]; [ValueError] when [other] is not
    an ancestor of [self] component by component. *)
Definition relative_to (self other : string) : result string :=
  if String.eqb (path_root self) (path_root other)
     && is_prefix_of (path_tail other) (path_tail self)
  then Ok (relative_str (skipn (List.length (path_tail other)) (path_tail self)))
  else Raise ValueError.

(** *** [json.dumps] on strings and integers (default [ensure_ascii]) *)

Definition backslash : ascii := ascii_of_nat 92.

Definition hex_digit (n : nat) : ascii :=
  nth n [ "0"; "1"; "2"; "3"; "4"; "5"; "6"; "7"; "8"; "9";
          "a"; "b"; "c"; "d"; "e"; "f" ]%char "0"%char.

Definition two (a b : ascii) : string := String a (String b EmptyString).

Definition json_escape_char (c : ascii) : string :=
  let n := nat_of_ascii c in
  if Ascii.eqb c dquote then two backslash dquote
  else if Ascii.eqb c backslash then two backslash backslash
  else if (n =? 8)%nat then two backslash "b"
  else if (n =? 12)%nat then two backslash "f"
  else if (n =? 10)%nat then two backslash "n"
  else if (n =? 13)%nat then two backslash "r"
  else if (n =? 9)%nat then two backslash "t"
  else if in_range 32 126 c then String c EmptyString
  else String backslash
         (String "u" (String "0" (String "0"
            (two (hex_digit (n / 16)) (hex_digit (n mod 16)))))).

Fixpoint json_escape (s : string) : string :=
  match s with
  | EmptyString => EmptyString
  | String c r => String.append (json_escape_char c) (json_escape r)
  end.

Definition json_str (s : string) : string :=
  String dquote (String.append (json_escape s) (String dquote EmptyString)).

Definition json_opt_str (o : option string) : string :=
  match o with
  | Some s => json_str s
  | None => "null"
  end.

Definition json_opt_int (o : option Z) : string :=
  match o with
  | Some n => str_of_int n
  | None => "null"
  end.

(** *** Reading an escaped character back

    The inverse of [json_escape_char] on the front of a string; it is the
    device by which the serialization is shown to be unambiguous. *)
Definition hex_value (c : ascii) : nat :=
  if in_range 48 57 c then nat_of_ascii c - 48 else nat_of_ascii c - 87.

Definition unescape_char (s : string) : option (ascii * string) :=
  match s with
  | EmptyString => None
  | String c r =>
      if Ascii.eqb c dquote then None
      else if Ascii.eqb c backslash then
        match r with
        | EmptyString => None
        | String d r' =>
            if Ascii.eqb d dquote then Some (dquote, r')
            else if Ascii.eqb d backslash then Some (backslash, r')
            else if Ascii.eqb d "b" then Some (ascii_of_nat 8, r')
            else if Ascii.eqb d "f" then Some (ascii_of_nat 12, r')
            else if Ascii.eqb d "n" then Some (ascii_of_nat 10, r')
            else if Ascii.eqb d "r" then Some (ascii_of_nat 13, r')
            else if Ascii.eqb d "t" then Some (ascii_of_nat 9, r')
            else
              match r' with
              | String _ (String _ (String h (String l r''))) =>
                  Some (ascii_of_nat (16 * hex_value h + hex_value l), r'')
              | _ => None
              end
        end
      else Some (c, r)
  end.

(** The pieces of text that [json.dumps] writes around the values of a
    dictionary: before the first key and between two items. *)
Definition key_open (name : string) : string :=
  String.append "{" (String.append (json_str name) ": ").

Definition key_next (name : string) : string :=
  String.append ", " (String.append (json_str name) ": ").

Definition not_brace (c : ascii) : bool := negb (Ascii.eqb c "}").

End Py.

(** ** [sweflow_trace/python/hooks.py] *)

Module Hooks.
Import Py.

(** What [trace_calls] reads from a frame: [frame.f_code.co_filename],
    [frame.f_code.co_name] and [frame.f_lineno] (an [int] or [None]). *)
Record Frame : Type := mkFrame {
  co_filename : string;
  co_name : string;
  f_lineno : option Z
}.

(** An element of [call_stack]: [(relative path, func_name, lineno)]. *)
Definition entry : Type := (string * string * option Z)%type.

(** One side of a record, [{"filepath": _, "lineno": _, "func_name": _}],
    and a record, [{"caller": _, "callee": _}]. *)
Record Endpoint : Type := mkEndpoint {
  filepath : option string;
  lineno : option Z;
  func_name : option string
}.

Record CallRecord : Type := mkRecord {
  caller : Endpoint;
  callee : Endpoint
}.

Record CallTracer : Type := mkTracer {
  base_dir : string;
  call_stack : list entry;
  call_records : list CallRecord;
  call_records_set : gset string
}.

(** [CallTracer.__init__]; [cwd] is [os.getcwd()]. *)
Definition __init__ (cwd : string) (base : option string) : CallTracer :=
  {| base_dir := match base with Some b => b | None => cwd end;
     call_stack := [];
     call_records := [];
     call_records_set := ∅ |}.

(** [CallTracer._in_base_dir]. *)
Definition _in_base_dir (cwd : string) (self : CallTracer)
    (file_name : string) : bool :=
  let abs_path := abspath cwd file_name in
  startswith abs_path (String.append (base_dir self) "/")
  && endswith abs_path ".py".

(** [CallTracer._is_function]. *)
Definition _is_function (name : string) : bool :=
  if negb (isidentifier name) then false
  else if iskeyword name then false
  else true.

(** [json.dumps(new_record, sort_keys=True)]: keys in sorted order, the
    separators [", "] and [": "]. *)
Definition dumps_endpoint (e : Endpoint) : string :=
  String.append "{" (String.append (json_str "filepath") (String.append ": "
  (String.append (json_opt_str (filepath e)) (String.append ", "
  (String.append (json_str "func_name") (String.append ": "
  (String.append (json_opt_str (func_name e)) (String.append ", "
  (String.append (json_str "lineno") (String.append ": "
  (String.append (json_opt_int (lineno e)) "}"))))))))))).

Definition dumps_record (r : CallRecord) : string :=
  String.append "{" (String.append (json_str "callee") (String.append ": "
  (String.append (dumps_endpoint (callee r)) (String.append ", "
  (String.append (json_str "caller") (String.append ": "
  (String.append (dumps_endpoint (caller r)) "}"))))))).

(** The values tested by [any(v is None for v in [...])]. *)
Inductive value : Type :=
| VNone
| VStr (s : string)
| VInt (n : Z).

Definition of_str (o : option string) : value :=
  match o with Some s => VStr s | None => VNone end.

Definition of_int (o : option Z) : value :=
  match o with Some n => VInt n | None => VNone end.

Definition is_None (v : value) : bool :=
  match v with VNone => true | _ => false end.

(** How one invocation of the hook ends. *)
Inductive outcome : Type :=
| Returns
| Raises (e : exn).

Definition set_stack (self : CallTracer) (st : list entry) : CallTracer :=
  {| base_dir := base_dir self;
     call_stack := st;
     call_records := call_records self;
     call_records_set := call_records_set self |}.

Definition add_record (self : CallTracer) (key : string) (r : CallRecord)
  : CallTracer :=
  {| base_dir := base_dir self;
     call_stack := call_stack self;
     call_records := call_records self ++ [r];
     call_records_set := call_records_set self ∪ {[ key ]} |}.

(** [CallTracer.trace_calls].  The tracer is mutated in place, so the
    tracer after the invocation is returned together with the outcome; the
    value returned by the method is always the hook itself. *)
Definition trace_calls (cwd : string) (self : CallTracer) (frame : Frame)
    (event : string) : CallTracer * outcome :=
  let file_name := co_filename frame in
  let func_name := co_name frame in
  let lineno := f_lineno frame in
  if String.eqb event "call" then
    if negb (_in_base_dir cwd self file_name) || negb (_is_function func_name)
    then (self, Returns)
    else
      let '(caller_file, caller_func, caller_line) :=
        match last (call_stack self) with
        | Some (f, g, l) => (Some f, Some g, l)
        | None => (None, None, None)
        end in
      (* push the current call to the call stack *)
      match relative_to file_name (base_dir self) with
      | Raise e => (self, Raises e)
      | Ok rel =>
          let self1 :=
            set_stack self (call_stack self ++ [(rel, func_name, lineno)]) in
          let new_record :=
            mkRecord (mkEndpoint caller_file caller_line caller_func)
                     (mkEndpoint (Some rel) lineno (Some func_name)) in
          let record_key := dumps_record new_record in
          (* skip if the record is already in the set *)
          if bool_decide (record_key ∈ call_records_set self1)
          then (self1, Returns)
          (* skip if any of the fields are None *)
          else if existsb is_None
                    [ of_str caller_file; of_str caller_func;
                      of_int caller_line; VStr file_name; VStr func_name;
                      of_int lineno ]
          then (self1, Returns)
          else (add_record self1 record_key new_record, Returns)
      end
  else if String.eqb event "return" then
    match last (call_stack self) with
    | Some (top_file, top_func, top_line) =>
        if _in_base_dir cwd self top_file && _is_function top_func
           && String.eqb top_func func_name
        then (* pop the current call from the call stack *)
             (set_stack self (removelast (call_stack self)), Returns)
        else (self, Returns)
    | None => (self, Returns)
    end
  else (self, Returns).

(** [CallTracer.save_to_file] writes [call_records]; this is the exported
    edge list. *)
Definition export (self : CallTracer) : list CallRecord := call_records self.

(** The interpreter delivers events to the installed hook one after the
    other; when the hook raises, [sys.setprofile] uninstalls it and no
    further event reaches the tracer. *)
Fixpoint feed (cwd : string) (self : CallTracer)
    (events : list (Frame * string)) : CallTracer * outcome :=
  match events with
  | [] => (self, Returns)
  | (frame, event) :: rest =>
      match trace_calls cwd self frame event with
      | (self', Returns) => feed cwd self' rest
      | (self', Raises e) => (self', Raises e)
      end
  end.

(** *** Vocabulary of the specification *)

(** The eligibility filter applied to the frame of an event. *)
Definition eligible (cwd : string) (self : CallTracer) (frame : Frame) : bool :=
  _in_base_dir cwd self (co_filename frame) && _is_function (co_name frame).

#[export] Instance Endpoint_eq_dec : EqDecision Endpoint.
Proof. solve_decision. Defined.

#[export] Instance CallRecord_eq_dec : EqDecision CallRecord.
Proof. solve_decision. Defined.

(** All six fields of an edge are present. *)
Definition complete (r : CallRecord) : bool :=
  match filepath (caller r), lineno (caller r), func_name (caller r),
        filepath (callee r), lineno (callee r), func_name (callee r) with
  | Some _, Some _, Some _, Some _, Some _, Some _ => true
  | _, _, _, _, _, _ => false
  end.

(** A stack entry made from a frame, and the same as one side of an
    edge. *)
Definition entry_of (rel : string) (frame : Frame) : entry :=
  (rel, co_name frame, f_lineno frame).

Definition callee_of (rel : string) (frame : Frame) : Endpoint :=
  {| filepath := Some rel; lineno := f_lineno frame;
     func_name := Some (co_name frame) |}.

Definition entry_endpoint (en : entry) : Endpoint :=
  {| filepath := Some (fst (fst en)); lineno := snd en;
     func_name := Some (snd (fst en)) |}.

(** The top of the stack as the caller side of an edge; all fields are
    null when the stack is empty. *)
Definition caller_context (st : list entry) : Endpoint :=
  match last st with
  | Some (f, g, l) => {| filepath := Some f; lineno := l; func_name := Some g |}
  | None => {| filepath := None; lineno := None; func_name := None |}
  end.

(** The edge from the caller context to a called frame, and the tracer
    with the called frame pushed. *)
Definition edge_of (self : CallTracer) (rel : string) (frame : Frame)
  : CallRecord :=
  {| caller := caller_context (call_stack self); callee := callee_of rel frame |}.

Definition pushed (self : CallTracer) (rel : string) (frame : Frame)
  : CallTracer :=
  set_stack self (call_stack self ++ [entry_of rel frame]).

(** The edge that an eligible call event asks the tracer to record: from
    the caller context to the called frame, provided the called file is
    expressible relative to the base directory and no field is missing. *)
Definition candidate (cwd : string) (self : CallTracer) (frame : Frame)
    (event : string) : list CallRecord :=
  if String.eqb event "call" && eligible cwd self frame then
    match relative_to (co_filename frame) (base_dir self) with
    | Ok rel =>
        if complete (edge_of self rel frame) then [edge_of self rel frame]
        else []
    | Raise _ => []
    end
  else [].

(** The edges asked to be recorded along a stream, in order. *)
Fixpoint candidates (cwd : string) (self : CallTracer)
    (events : list (Frame * string)) : list CallRecord :=
  match events with
  | [] => []
  | (frame, event) :: rest =>
      match trace_calls cwd self frame event with
      | (self', Returns) =>
          candidate cwd self frame event ++ candidates cwd self' rest
      | (_, Raises _) => []
      end
  end.

(** First-seen order: every edge once, at the place of its first
    occurrence. *)
Fixpoint first_seen_into (seen : list CallRecord) (edges : list CallRecord)
  : list CallRecord :=
  match edges with
  | [] => seen
  | r :: rest =>
      if bool_decide (r ∈ seen) then first_seen_into seen rest
      else first_seen_into (seen ++ [r]) rest
  end.

Definition first_seen (edges : list CallRecord) : list CallRecord :=
  first_seen_into [] edges.

(** The set of keys mirrors the list of records. *)
Definition keyed (self : CallTracer) : Prop :=
  forall k, k ∈ call_records_set self <->
            exists r, r ∈ call_records self /\ dumps_record r = k.

(** [e] is the called side of the eligible call event of [events] with
    frame [src]. *)
Definition endpoint_source (cwd : string) (self : CallTracer)
    (events : list (Frame * string)) (e : Endpoint) (src : Frame) : Prop :=
  (src, "call") ∈ events /\ eligible cwd self src = true
  /\ exists rel, relative_to (co_filename src) (base_dir self) = Ok rel
                 /\ e = callee_of rel src.

Definition from_call (cwd : string) (self : CallTracer)
    (events : list (Frame * string)) (e : Endpoint) : Prop :=
  exists frame rel,
    (frame, "call") ∈ events /\ eligible cwd self frame = true
    /\ relative_to (co_filename frame) (base_dir self) = Ok rel
    /\ e = callee_of rel frame.

(** Every entry of the stack and both sides of every record stem from
    eligible call events of [events]. *)
Definition sourced (cwd : string) (t0 : CallTracer)
    (events : list (Frame * string)) (self : CallTracer) : Prop :=
  base_dir self = base_dir t0
  /\ Forall (fun en => from_call cwd t0 events (entry_endpoint en)) (call_stack self)
  /\ Forall (fun r => from_call cwd t0 events (caller r)
                      /\ from_call cwd t0 events (callee r)) (call_records self).

(** *** Sample values *)

Definition demo_tracer : CallTracer := __init__ "/proj" None.
Definition demo_outer : Frame := mkFrame "/proj/a.py" "outer" (Some 3%Z).
Definition demo_inner : Frame := mkFrame "/proj/pkg/b.py" "inner" (Some 9%Z).
Definition demo_run : Frame := mkFrame "/proj/a.py" "run" (Some 3%Z).
Definition demo_lib : Frame := mkFrame "/usr/lib/python3/x.py" "run" (Some 7%Z).
Definition demo_relative : Frame := mkFrame "a.py" "main" (Some 1%Z).

End Hooks.

(** ** [sweflow_trace/python/trace.py] *)

Module Trace.
Import Py.

(** *** The interpreter's part

    Two things [collect_tests] takes from the running interpreter: the
    order in which a [set] of strings is iterated (fixed within one
    process, every element once), and the pseudo-random generator of the
    module [random] ([seed] replaces the generator's state, [_randbelow(n)]
    draws below [n] and advances it). *)
Record Interpreter : Type := mkInterpreter {
  iter_set : list string -> list string;
  iter_set_NoDup : forall l, NoDup (iter_set l);
  iter_set_elem : forall l x, x ∈ iter_set l <-> x ∈ l;
  rng : Type;
  seed : Z -> rng;
  randbelow : nat -> rng -> nat * rng;
  randbelow_lt : forall n g, (0 < n)%nat -> (fst (randbelow n g) < n)%nat
}.

(** [x[i], x[j] = x[j], x[i]]; an index out of range is [IndexError] in
    Python and does not occur below, since [randbelow] stays in range. *)
Definition swap (x : list string) (i j : nat) : list string :=
  match x !! i, x !! j with
  | Some a, Some b => <[j := a]> (<[i := b]> x)
  | _, _ => x
  end.

(** [random.shuffle]: [for i in reversed(range(1, len(x))): j =
    randbelow(i + 1); x[i], x[j] = x[j], x[i]]. *)
Fixpoint shuffle_from (I : Interpreter) (i : nat) (x : list string)
    (g : rng I) : list string * rng I :=
  match i with
  | O => (x, g)
  | S i' =>
      let (j, g') := randbelow I (S i) g in
      shuffle_from I i' (swap x i j) g'
  end.

Definition shuffle (I : Interpreter) (x : list string) (g : rng I)
  : list string * rng I :=
  shuffle_from I (List.length x - 1) x g.

(** [l[:n]]. *)
Definition slice_to {A} (n : Z) (l : list A) : list A :=
  if (0 <=? n)%Z then take (Z.to_nat n) l
  else take (Z.to_nat (Z.of_nat (List.length l) + n)) l.

(** An entry of [collectors[].result[]] of the discovery report. *)
Record CollectItem : Type := mkItem {
  item_type : string;
  item_nodeid : string
}.

Definition is_test_function (res : CollectItem) : bool :=
  existsb (String.eqb (item_type res)) [ "Function"; "TestCaseFunction" ].

(** The canonical ids, before the set is built. *)
Definition canonical_ids (collectors : list (list CollectItem)) : list string :=
  List.map re_sub_brackets
    (List.map item_nodeid (List.filter is_test_function (List.concat collectors))).

(** [collect_tests], from the parsed discovery report on.  [g] is the
    state of the module-level generator when the function is entered; the
    state it leaves is returned with the list. *)
Definition collect_tests (I : Interpreter) (g : rng I)
    (collectors : list (list CollectItem))
    (random : bool) (random_seed : Z) (max_tests : option Z)
  : list string * rng I :=
  let tests := iter_set I (canonical_ids collectors) in
  let '(tests, g) :=
    if random then shuffle I tests (seed I random_seed) else (tests, g) in
  let tests :=
    match max_tests with
    | Some n => if (n =? 0)%Z then tests else slice_to n tests
    | None => tests
    end in
  (tests, g).

(** *** Per-test reports *)

(** A parsed JSON document ([json.load]); an object is the list of its
    items. *)
#[warnings="-register-all"]
Inductive json : Type :=
| JNull
| JBool (b : bool)
| JInt (n : Z)
| JStr (s : string)
| JList (l : list json)
| JObj (items : list (string * json)).
(* Numbers with a fraction are left out: the code reads one number, the
   line of the test, which the report writes as an integer. *)

Fixpoint assoc (k : string) (items : list (string * json)) : option json :=
  match items with
  | [] => None
  | (k', v) :: rest => if String.eqb k k' then Some v else assoc k rest
  end.

(** [v[k]] for a string [k]. *)
Definition getitem (v : json) (k : string) : result json :=
  match v with
  | JObj items =>
      match assoc k items with
      | Some x => Ok x
      | None => Raise KeyError
      end
  | _ => Raise TypeError
  end.

(** [v[0]]. *)
Definition getitem0 (v : json) : result json :=
  match v with
  | JList (x :: _) => Ok x
  | JList [] => Raise IndexError
  | JStr (String c _) => Ok (JStr (String c EmptyString))
  | JStr EmptyString => Raise IndexError
  | JObj _ => Raise KeyError
  | _ => Raise TypeError
  end.

(** [v + 1]. *)
Definition add_one (v : json) : result Z :=
  match v with
  | JInt n => Ok (n + 1)%Z
  | JBool b => Ok ((if b then 1 else 0) + 1)%Z
  | _ => Raise TypeError
  end.

Definition first (l : list string) : string :=
  match l with
  | x :: _ => x
  | [] => EmptyString
  end.

Definition final (l : list string) : string :=
  match last l with
  | Some x => x
  | None => EmptyString
  end.

(** [get_test_func_id]. *)
Definition get_test_func_id (test_result : json) : result string :=
  bind (getitem test_result "nodeid") (fun nodeid =>
  match nodeid with
  | JStr s =>
      let func_node := re_sub_brackets s in
      let filepath := first (split func_node "::") in
      let func_name := final (split func_node "::") in
      bind (getitem test_result "lineno") (fun l =>
      bind (add_one l) (fun lineno =>
      Ok (String.append filepath (String.append ":"
            (String.append (str_of_int lineno) (String.append ":" func_name))))))
  | _ => Raise TypeError
  end).

(** What the outside world does for one run of [trace_test]: creating and
    removing the scratch directory, the traced subprocess, and the two
    artifacts as [json.load(open(...))] finds them. *)
Inductive proc_result : Type :=
| Timeout
| Exited (returncode : Z).

Record TestRun : Type := mkRun {
  tmpdir_create : result unit;
  subprocess_run : proc_result;
  load_report : result json;
  load_trace : result json;
  tmpdir_cleanup : result unit
}.

Record TraceRecord : Type := mkTraceRecord {
  test_id : string;
  test_func_id : string;
  call_relations : json
}.

(** [run_trace_test]. *)
Definition run_trace_test (w : TestRun) : result unit :=
  match subprocess_run w with
  | Timeout => Raise TimeoutExpired
  | Exited rc => if (rc =? 0)%Z then Ok tt else Raise PytestFailed
  end.

(** [with TemporaryDirectory(...) as d: body]: the directory is removed
    however the body ends. *)
Definition with_tmpdir {A} (w : TestRun) (body : result A) : result A :=
  bind (tmpdir_create w) (fun _ =>
  match body, tmpdir_cleanup w with
  | _, Raise e => Raise e
  | r, Ok _ => r
  end).

(** [try: body except Exception as e: handler]. *)
Definition try_except {A} (body : result A) (handler : exn -> result A)
  : result A :=
  match body with
  | Ok a => Ok a
  | Raise e => handler e
  end.

(** [v == 'passed']. *)
Definition is_passed (v : json) : bool :=
  match v with
  | JStr s => String.eqb s "passed"
  | _ => false
  end.

(** The body of the [with] statement: [inl tt] is the early [return None],
    [inr] carries [test_result] and [call_relationships] out of it. *)
Definition with_body (w : TestRun) : result (unit + json * json) :=
  bind (run_trace_test w) (fun _ =>
  bind (load_report w) (fun test_report =>
  bind (getitem test_report "tests") (fun tests =>
  bind (getitem0 tests) (fun test_result =>
  bind (getitem test_result "outcome") (fun outcome =>
  if negb (is_passed outcome) then Ok (inl tt)
  else
    bind (load_trace w) (fun call_relationships =>
    Ok (inr (test_result, call_relationships)))))))).

(** [trace_test]: the [try] block, and the whole function. *)
Definition trace_test_body (w : TestRun) (test : string)
  : result (option TraceRecord) :=
  bind (with_tmpdir w (with_body w)) (fun r =>
  match r with
  | inl _ => Ok None
  | inr (test_result, call_relationships) =>
      bind (get_test_func_id test_result) (fun id =>
      Ok (Some {| test_id := test;
                  test_func_id := id;
                  call_relations := call_relationships |}))
  end).

Definition trace_test (w : TestRun) (test : string)
  : result (option TraceRecord) :=
  try_except (trace_test_body w test) (fun _ => Ok None).

(** [generate_test_traces]: the results are taken as the workers complete
    ([completed] lists the submitted tests in that order); [if result]
    holds for a dictionary, which is never empty here, and fails for
    [None].  The list [traces] is what is written to [traces.json]. *)

Fixpoint generate_test_traces (world : string -> TestRun)
    (completed : list string) : result (list TraceRecord) :=
  match completed with
  | [] => Ok []
  | test :: rest =>
      bind (trace_test (world test) test) (fun r =>
      bind (generate_test_traces world rest) (fun traces =>
      Ok (match r with
          | Some t => t :: traces
          | None => traces
          end)))
  end.

(** *** Vocabulary of the specification *)

(** The outcome reported for the test: [tests[0].outcome] of the
    execution report. *)
Definition reported_outcome (w : TestRun) : result json :=
  bind (load_report w) (fun test_report =>
  bind (getitem test_report "tests") (fun tests =>
  bind (getitem0 tests) (fun test_result =>
  getitem test_result "outcome"))).

(** The non-empty per-test results of a list of tests. *)
Definition non_empty_results (world : string -> TestRun)
    (tests : list string) : list TraceRecord :=
  List.flat_map
    (fun test => match trace_test (world test) test with
                 | Ok (Some r) => [r]
                 | _ => []
                 end)
    tests.

(** A node id [filepath::...::funcname] with an optional bracketed
    suffix. *)
Definition bracketed (params : option string) : string :=
  match params with
  | Some p => String "[" (String.append p "]")
  | None => EmptyString
  end.

Definition nodeid_of (filepath : string) (classes : list string)
    (funcname : string) (params : option string) : string :=
  String.append (join "::" (filepath :: classes ++ [funcname])) (bracketed params).

(** A component without colon and without left bracket; a parameter text
    without right bracket and without line feed. *)
Definition plain_char (c : ascii) : bool :=
  negb (Ascii.eqb c ":") && negb (Ascii.eqb c "[").

Definition plain (s : string) : bool := all_chars plain_char s.

Definition param_char (c : ascii) : bool :=
  negb (Ascii.eqb c "]") && negb (Ascii.eqb c newline).

Definition simple_params (params : option string) : bool :=
  match params with
  | Some p => all_chars param_char p
  | None => true
  end.

Definition no_colon (s : string) : bool :=
  all_chars (fun c => negb (Ascii.eqb c ":")) s.

Definition no_bracket (s : string) : bool :=
  all_chars (fun c => negb (Ascii.eqb c "[")) s.

(** *** Sample values *)

Definition sample_report : list (list CollectItem) :=
  [ [ mkItem "Module" "tests/test_a.py";
      mkItem "Function" "tests/test_a.py::test_f[1-2]";
      mkItem "Function" "tests/test_a.py::test_f[3-4]";
      mkItem "Function" "tests/test_a.py::test_g" ];
    [ mkItem "Class" "tests/test_b.py::TestB";
      mkItem "TestCaseFunction" "tests/test_b.py::TestB::test_h";
      mkItem "Function" "tests/test_b.py::test_i";
      mkItem "Function" "tests/test_b.py::test_j[a]" ] ].

Definition report_with (outcome : string) : json :=
  JObj [ ("tests",
          JList [ JObj [ ("nodeid", JStr "tests/test_a.py::test_ok[1-2]");
                         ("lineno", JInt 9);
                         ("outcome", JStr outcome) ] ]) ].

Definition sample_trace : json := JList [].

(** One test passes, one is reported as skipped although a trace
    artifact was written, every other one runs into the timeout. *)
Definition sample_world (test : string) : TestRun :=
  if String.eqb test "tests/test_a.py::test_ok" then
    {| tmpdir_create := Ok tt; subprocess_run := Exited 0;
       load_report := Ok (report_with "passed");
       load_trace := Ok sample_trace; tmpdir_cleanup := Ok tt |}
  else if String.eqb test "tests/test_a.py::test_skip" then
    {| tmpdir_create := Ok tt; subprocess_run := Exited 0;
       load_report := Ok (report_with "skipped");
       load_trace := Ok sample_trace; tmpdir_cleanup := Ok tt |}
  else
    {| tmpdir_create := Ok tt; subprocess_run := Timeout;
       load_report := Raise OSError;
       load_trace := Raise OSError; tmpdir_cleanup := Ok tt |}.

(** *** An interpreter to compute with

    Sets are iterated in the order of stdpp's [elements]; the generator is
    a linear congruential one.  It serves for examples only: no statement
    below depends on it. *)
Definition sample_interpreter : Interpreter.
Proof.
  refine {| iter_set := fun l => elements (list_to_set l : gset string);
            rng := Z;
            seed := fun s => s;
            randbelow := fun n g =>
              (Z.to_nat (g mod Z.of_nat n),
               (g * 1103515245 + 12345) mod 2147483648)%Z |}.
  - intros l. apply NoDup_elements.
  - intros l x. rewrite elem_of_elements. apply elem_of_list_to_set.
  - intros n g Hn. simpl.
    assert (0 <= g mod Z.of_nat n < Z.of_nat n)%Z by (apply Z.mod_pos_bound; lia).
    lia.
Defined.

(** Another process of the same interpreter.  The hash of a [str] is
    salted anew when a Python process starts (unless [PYTHONHASHSEED] is
    set), so the order in which a set of strings is iterated changes from
    one process to the next, while the generator, once seeded, draws the
    same numbers. *)
Definition with_set_order (I : Interpreter) (order : list string -> list string)
    (order_NoDup : forall l, NoDup (order l))
    (order_elem : forall l x, x ∈ order l <-> x ∈ l) : Interpreter :=
  {| iter_set := order;
     iter_set_NoDup := order_NoDup;
     iter_set_elem := order_elem;
     rng := rng I;
     seed := seed I;
     randbelow := randbelow I;
     randbelow_lt := randbelow_lt I |}.

(** A second process to compute with: it iterates a set in the reverse
    of the order of [sample_interpreter]. *)
Definition other_process : Interpreter.
Proof.
  refine (with_set_order sample_interpreter
            (fun l => reverse (iter_set sample_interpreter l)) _ _).
  - intros l. rewrite reverse_Permutation. apply iter_set_NoDup.
  - intros l x. rewrite elem_of_reverse. apply iter_set_elem.
Defined.

End Trace.

(** ** More of [hooks.py]: the artifact *)

Module HooksMore.
Import Py Hooks.

(** A path with a character other than the separator. *)
Definition has_name (s : string) : bool :=
  negb (all_chars (fun c => Ascii.eqb c "/") s).

(** The events that the hook acts on. *)
Definition acted_on (e : Frame * string) : bool :=
  String.eqb (snd e) "call" || String.eqb (snd e) "return".

(** [CallTracer.save_to_file]: the text that
    [json.dump(self.call_records, f, indent=4)] writes.  With an indent,
    every item starts on a line of its own, indented by four spaces for
    each level; the keys come in the order in which the record was built. *)
Fixpoint spaces (n : nat) : string :=
  match n with
  | O => EmptyString
  | S k => String " " (spaces k)
  end.

Definition nl (level : nat) : string := String newline (spaces (4 * level)).

Definition item (level : nat) (name : string) : string :=
  nl level +:+ json_str name +:+ ": ".

Definition indent_endpoint (e : Endpoint) : string :=
  "{" +:+ item 3 "filepath" +:+ json_opt_str (filepath e) +:+ ","
      +:+ item 3 "lineno" +:+ json_opt_int (lineno e) +:+ ","
      +:+ item 3 "func_name" +:+ json_opt_str (func_name e)
      +:+ nl 2 +:+ "}".

Definition indent_record (r : CallRecord) : string :=
  "{" +:+ item 2 "caller" +:+ indent_endpoint (caller r) +:+ ","
      +:+ item 2 "callee" +:+ indent_endpoint (callee r)
      +:+ nl 1 +:+ "}".

Fixpoint indent_items (r : CallRecord) (rs : list CallRecord) : string :=
  indent_record r +:+
  match rs with
  | [] => nl 0 +:+ "]"
  | r' :: rs' => "," +:+ nl 1 +:+ indent_items r' rs'
  end.

Definition save_to_file (self : CallTracer) : string :=
  match call_records self with
  | [] => "[]"
  | r :: rs => "[" +:+ nl 1 +:+ indent_items r rs
  end.

Definition not_comma (c : ascii) : bool := negb (Ascii.eqb c ",").

End HooksMore.

(** ** More of [trace.py]: canonical identifiers, the report, the caches *)

Module TraceMore.
Import Py Trace.

(** No left bracket of [s] is followed by a right bracket before the next
    line feed: nothing is left for the pattern to match. *)
Fixpoint settled (s : string) : bool :=
  match s with
  | EmptyString => true
  | String c r =>
      (if Ascii.eqb c "[" then
         match close_index r with Some _ => false | None => true end
       else true)
      && settled r
  end.

(** *** The project tree and its caches *)

(** A directory tree: a file, or a directory with its named entries
    (no symbolic links). *)
#[warnings="-register-all"]
Inductive node : Type :=
| File
| Dir (entries : list (string * node)).

(** Induction on trees: a property of a directory may use it for every
    entry. *)
Fixpoint node_induction (P : node -> Prop) (HF : P File)
    (HD : forall es, Forall (fun e => P (snd e)) es -> P (Dir es))
    (n : node) : P n :=
  match n with
  | File => HF
  | Dir es =>
      HD es ((fix go (l : list (string * node)) : Forall (fun e => P (snd e)) l :=
                match l with
                | [] => List.Forall_nil _
                | e :: l' => List.Forall_cons _ e l' (node_induction P HF HD (snd e)) (go l')
                end) es)
  end.

Definition is_cache_name (name : string) : bool :=
  String.eqb name "__pycache__" || String.eqb name ".pytest_cache".

(** [clear_python_cache(dir)], on the tree found at [dir].  [os.walk]
    visits the directories from the top; at each one the loop removes,
    with all they hold, the sub-directories named [__pycache__] or
    [.pytest_cache] (names of files are not looked at), and the walk goes
    on into the sub-directories that are left. *)
Fixpoint walk (visit : node -> node) (es : list (string * node))
  : list (string * node) :=
  match es with
  | [] => []
  | (name, child) :: rest =>
      match child with
      | File => (name, File) :: walk visit rest
      | Dir _ =>
          if is_cache_name name then walk visit rest
          else (name, visit child) :: walk visit rest
      end
  end.

Fixpoint clear_python_cache (root : node) : node :=
  match root with
  | File => File
  | Dir entries => Dir (walk clear_python_cache entries)
  end.

(** A directory with the name of a cache, anywhere below the root. *)
Fixpoint any_cache (below : node -> bool) (es : list (string * node)) : bool :=
  match es with
  | [] => false
  | (name, child) :: rest =>
      match child with
      | File => any_cache below rest
      | Dir _ => is_cache_name name || below child || any_cache below rest
      end
  end.

Fixpoint has_cache_dir (root : node) : bool :=
  match root with
  | File => false
  | Dir entries => any_cache has_cache_dir entries
  end.

(** The node at a path, given by its components. *)
Fixpoint assoc_node (name : string) (es : list (string * node)) : option node :=
  match es with
  | [] => None
  | (name', n) :: rest => if String.eqb name name' then Some n else assoc_node name rest
  end.

Fixpoint find (path : list string) (root : node) : option node :=
  match path with
  | [] => Some root
  | name :: rest =>
      match root with
      | File => None
      | Dir entries =>
          match assoc_node name entries with
          | Some n => find rest n
          | None => None
          end
      end
  end.

(** [run_pytest]: the subprocess is run (it changes the tree below [cwd]
    and gives a return code), the caches are cleared, and only then is
    the return code looked at. *)
Definition run_pytest (subprocess : node -> node * Z) (cwd : node)
  : node * result unit :=
  let (tree, returncode) := subprocess cwd in
  let tree := clear_python_cache tree in
  if negb (returncode =? 0)%Z then (tree, Raise PytestFailed)
  else (tree, Ok tt).

(** *** Reading the discovery report *)

(** [for x in v]: the elements of a list, the keys of an object, the
    characters of a string; other values cannot be iterated. *)
Fixpoint chars (s : string) : list json :=
  match s with
  | EmptyString => []
  | String c r => JStr (String c EmptyString) :: chars r
  end.

Definition iterate (v : json) : result (list json) :=
  match v with
  | JList l => Ok l
  | JObj items => Ok (List.map (fun kv => JStr (fst kv)) items)
  | JStr s => Ok (chars s)
  | _ => Raise TypeError
  end.

(** [res['type'] not in ['Function', 'TestCaseFunction']]. *)
Definition is_function_type (v : json) : bool :=
  match v with
  | JStr s => existsb (String.eqb s) [ "Function"; "TestCaseFunction" ]
  | _ => false
  end.

(** The inner loop of [collect_tests] over [collector['result']], adding
    to [tests]. *)
Fixpoint scan_results (results : list json) (tests : list json)
  : result (list json) :=
  match results with
  | [] => Ok tests
  | res :: rest =>
      bind (getitem res "type") (fun type =>
      if negb (is_function_type type) then scan_results rest tests
      else bind (getitem res "nodeid") (fun nodeid =>
           scan_results rest (tests ++ [nodeid])))
  end.

(** The outer loop over [report['collectors']]. *)
Fixpoint scan_collectors (collectors : list json) (tests : list json)
  : result (list json) :=
  match collectors with
  | [] => Ok tests
  | collector :: rest =>
      bind (getitem collector "result") (fun results =>
      bind (iterate results) (fun results =>
      bind (scan_results results tests) (fun tests =>
      scan_collectors rest tests)))
  end.

(** [re.sub(r"\[.*?\]", "", test) for test in tests]: the pattern is
    applied to strings only. *)
Fixpoint canonical_all (tests : list json) : result (list string) :=
  match tests with
  | [] => Ok []
  | JStr s :: rest =>
      bind (canonical_all rest) (fun ids => Ok (re_sub_brackets s :: ids))
  | _ :: _ => Raise TypeError
  end.

(** Lines 115 to 126 of [collect_tests]: from the parsed report to the
    list of which the set is made. *)
Definition read_report (report : json) : result (list string) :=
  bind (getitem report "collectors") (fun collectors =>
  bind (iterate collectors) (fun collectors =>
  bind (scan_collectors collectors []) canonical_all)).

(** A report as the collection writes it. *)
Definition item_json (res : CollectItem) : json :=
  JObj [ ("nodeid", JStr (item_nodeid res)); ("type", JStr (item_type res)) ].

Definition collector_json (results : list CollectItem) : json :=
  JObj [ ("nodeid", JStr EmptyString); ("outcome", JStr "passed");
         ("result", JList (List.map item_json results)) ].

Definition report_json (collectors : list (list CollectItem)) : json :=
  JObj [ ("exitcode", JInt 0);
         ("collectors", JList (List.map collector_json collectors)) ].

(** A report that carries the items [cs]: each item has its type and its
    node id, as strings, among its keys; each collector has the list of
    its items under [result]; the report has the list of its collectors
    under [collectors]. *)
Definition is_item (v : json) (res : CollectItem) : Prop :=
  getitem v "type" = Ok (JStr (item_type res))
  /\ getitem v "nodeid" = Ok (JStr (item_nodeid res)).

Definition is_collector (v : json) (c : list CollectItem) : Prop :=
  exists results, getitem v "result" = Ok (JList results)
                  /\ Forall2 is_item results c.

Definition is_report (report : json) (cs : list (list CollectItem)) : Prop :=
  exists collectors, getitem report "collectors" = Ok (JList collectors)
                     /\ Forall2 is_collector collectors cs.

(** A project tree with caches at two levels and a file that has the
    name of a cache. *)
Definition sample_tree : node :=
  Dir [ ("pkg", Dir [ ("h.py", File);
                      ("__pycache__", Dir [ ("h.cpython-311.pyc", File) ]) ]);
        (".pytest_cache", Dir [ ("v", Dir []) ]);
        ("data", Dir [ ("__pycache__", File) ]);
        ("setup.py", File) ].

End TraceMore.

(* ===================================================================== *)
(** * Part II: the properties                                              *)
(* ===================================================================== *)

(** ** Facts about the serialization *)

Module PyFacts.
Import Py.

#[local] Arguments String.append !s1 s2 : simpl nomatch.

Lemma append_assoc (a b c : string) :
  String.append (String.append a b) c = String.append a (String.append b c).
Proof. induction a as [|x a IH]; simpl; [reflexivity | f_equal; exact IH]. Qed.

Lemma append_cancel (a x y : string) :
  String.append a x = String.append a y -> x = y.
Proof. induction a as [|c a IH]; simpl; intros H; [exact H | injection H; auto]. Qed.

Lemma unescape_escape (c : ascii) (r : string) :
  unescape_char (String.append (json_escape_char c) r) = Some (c, r).
Proof. destruct c as [[] [] [] [] [] [] [] []]; reflexivity. Qed.

Lemma unescape_dquote (r : string) : unescape_char (String dquote r) = None.
Proof. reflexivity. Qed.

(** An escaped string followed by the closing quote determines both the
    string and what follows. *)
Lemma json_escape_delimited (a b x y : string) :
  String.append (json_escape a) (String dquote x)
  = String.append (json_escape b) (String dquote y) ->
  a = b /\ x = y.
Proof.
  revert b. induction a as [|c a IH]; intros [|d b]; simpl; intros H.
  - injection H; auto.
  - apply (f_equal unescape_char) in H.
    rewrite append_assoc, unescape_escape in H. discriminate H.
  - apply (f_equal unescape_char) in H.
    rewrite append_assoc, unescape_escape in H. discriminate H.
  - apply (f_equal unescape_char) in H.
    rewrite !append_assoc, !unescape_escape in H.
    injection H as -> H. destruct (IH _ H) as [-> ->]. auto.
Qed.

Lemma str_of_int_inj (a b : Z) : str_of_int a = str_of_int b -> a = b.
Proof.
  unfold str_of_int. intros H. apply DecimalZ.to_int_inj.
  apply (f_equal NilEmpty.int_of_string) in H.
  rewrite !NilEmpty.isi in H. now injection H.
Qed.

Lemma uint_not_brace (d : Decimal.uint) :
  all_chars not_brace (NilEmpty.string_of_uint d) = true.
Proof. induction d; simpl; auto. Qed.

Lemma json_opt_int_not_brace (o : option Z) :
  all_chars not_brace (json_opt_int o) = true.
Proof.
  destruct o as [n|]; [|reflexivity].
  unfold json_opt_int, str_of_int.
  destruct (Z.to_int n); simpl; apply uint_not_brace.
Qed.

(** Two strings without a closing brace, each followed by one, are equal
    as soon as the wholes are. *)
Lemma brace_delimited (a b x y : string) :
  all_chars not_brace a = true -> all_chars not_brace b = true ->
  String.append a (String "}" x) = String.append b (String "}" y) ->
  a = b /\ x = y.
Proof.
  revert b. induction a as [|c a IH]; intros [|d b]; simpl; intros Ha Hb H.
  - injection H; auto.
  - injection H as <- _. discriminate Hb.
  - injection H as -> _. discriminate Ha.
  - apply andb_prop in Ha as [_ Ha]. apply andb_prop in Hb as [_ Hb].
    injection H as -> H. destruct (IH _ Ha Hb H) as [-> ->]. auto.
Qed.

Lemma json_opt_int_inj (a b : option Z) : json_opt_int a = json_opt_int b -> a = b.
Proof.
  destruct a as [a|], b as [b|]; simpl; intros H.
  - f_equal. now apply str_of_int_inj.
  - exfalso. unfold str_of_int in H.
    destruct (Z.to_int a) as [[]|[]]; simpl in H; discriminate H.
  - exfalso. unfold str_of_int in H.
    destruct (Z.to_int b) as [[]|[]]; simpl in H; discriminate H.
  - reflexivity.
Qed.

Lemma json_opt_int_delimited (a b : option Z) (x y : string) :
  String.append (json_opt_int a) (String "}" x)
  = String.append (json_opt_int b) (String "}" y) ->
  a = b /\ x = y.
Proof.
  intros H.
  destruct (brace_delimited _ _ _ _ (json_opt_int_not_brace a)
              (json_opt_int_not_brace b) H) as [E ->].
  split; [now apply json_opt_int_inj | reflexivity].
Qed.

Lemma json_str_prefix (a b x y : string) :
  String.append (json_str a) x = String.append (json_str b) y ->
  a = b /\ x = y.
Proof.
  unfold json_str. simpl. rewrite !append_assoc. simpl.
  intros H. injection H as H. now apply json_escape_delimited.
Qed.

Lemma json_opt_str_prefix (a b : option string) (x y : string) :
  String.append (json_opt_str a) x = String.append (json_opt_str b) y ->
  a = b /\ x = y.
Proof.
  destruct a as [a|], b as [b|]; intros H.
  - destruct (json_str_prefix _ _ _ _ H) as [-> ->]. auto.
  - discriminate H.
  - discriminate H.
  - simpl in H. injection H as ->. auto.
Qed.

End PyFacts.

(** ** Facts about the tracer *)

Module HooksFacts.
Import Py PyFacts Hooks.

#[local] Arguments String.append !s1 s2 : simpl nomatch.


Lemma dumps_endpoint_eq (e : Endpoint) (x : string) :
  String.append (dumps_endpoint e) x =
  String.append (key_open "filepath")
    (String.append (json_opt_str (filepath e))
      (String.append (key_next "func_name")
        (String.append (json_opt_str (func_name e))
          (String.append (key_next "lineno")
            (String.append (json_opt_int (lineno e)) (String "}" x)))))).
Proof.
  unfold dumps_endpoint, key_open, key_next.
  rewrite !append_assoc. reflexivity.
Qed.

Lemma dumps_endpoint_prefix (e1 e2 : Endpoint) (x y : string) :
  String.append (dumps_endpoint e1) x = String.append (dumps_endpoint e2) y ->
  e1 = e2 /\ x = y.
Proof.
  rewrite !dumps_endpoint_eq. intros H.
  apply append_cancel in H.
  apply json_opt_str_prefix in H as [Hf H].
  apply append_cancel in H.
  apply json_opt_str_prefix in H as [Hn H].
  apply append_cancel in H.
  apply json_opt_int_delimited in H as [Hl ->].
  destruct e1, e2; simpl in *; subst; auto.
Qed.

Lemma dumps_record_eq (r : CallRecord) :
  dumps_record r =
  String.append (key_open "callee")
    (String.append (dumps_endpoint (callee r))
      (String.append (key_next "caller")
        (String.append (dumps_endpoint (caller r)) "}"))).
Proof.
  unfold dumps_record, key_open, key_next.
  rewrite !append_assoc. reflexivity.
Qed.

(** The key is a faithful image of the six fields. *)
Lemma dumps_record_inj (r1 r2 : CallRecord) :
  dumps_record r1 = dumps_record r2 -> r1 = r2.
Proof.
  rewrite !dumps_record_eq. intros H.
  apply append_cancel in H.
  apply dumps_endpoint_prefix in H as [Hc H].
  apply append_cancel in H.
  apply dumps_endpoint_prefix in H as [Ha _].
  destruct r1, r2; simpl in *; subst; auto.
Qed.


(** *** One invocation of the hook *)

(** The call branch in the vocabulary of the specification. *)
Lemma trace_calls_call (cwd : string) (self : CallTracer) (frame : Frame) :
  trace_calls cwd self frame "call" =
  if eligible cwd self frame then
    match relative_to (co_filename frame) (base_dir self) with
    | Raise e => (self, Raises e)
    | Ok rel =>
        if bool_decide (dumps_record (edge_of self rel frame) ∈ call_records_set self)
        then (pushed self rel frame, Returns)
        else if complete (edge_of self rel frame)
             then (add_record (pushed self rel frame)
                     (dumps_record (edge_of self rel frame))
                     (edge_of self rel frame), Returns)
             else (pushed self rel frame, Returns)
    end
  else (self, Returns).
Proof.
  unfold trace_calls, eligible, edge_of, pushed, caller_context, callee_of, entry_of.
  simpl String.eqb. cbv iota.
  destruct (_in_base_dir cwd self (co_filename frame)); simpl; [|reflexivity].
  destruct (_is_function (co_name frame)); simpl; [|reflexivity].
  destruct (relative_to (co_filename frame) (base_dir self)) as [rel|e]; [|
    destruct (last (call_stack self)) as [[[f g] l]|]; reflexivity].
  destruct (last (call_stack self)) as [[[f g] l]|]; simpl.
  - destruct (bool_decide _); [reflexivity|].
    destruct l as [l|], (f_lineno frame) as [n|]; reflexivity.
  - destruct (bool_decide _); reflexivity.
Qed.

(** The return branch. *)
Lemma trace_calls_return (cwd : string) (self : CallTracer) (frame : Frame) :
  trace_calls cwd self frame "return" =
  match last (call_stack self) with
  | Some (top_file, top_func, _) =>
      if _in_base_dir cwd self top_file && _is_function top_func
         && String.eqb top_func (co_name frame)
      then (set_stack self (removelast (call_stack self)), Returns)
      else (self, Returns)
  | None => (self, Returns)
  end.
Proof. reflexivity. Qed.

Lemma trace_calls_other (cwd : string) (self : CallTracer) (frame : Frame)
    (event : string) :
  event <> "call" -> event <> "return" ->
  trace_calls cwd self frame event = (self, Returns).
Proof.
  intros H1 H2. unfold trace_calls.
  apply String.eqb_neq in H1, H2. now rewrite H1, H2.
Qed.

Lemma set_stack_same (self : CallTracer) : set_stack self (call_stack self) = self.
Proof. now destruct self. Qed.

Lemma trace_calls_base_dir cwd self frame event :
  base_dir (fst (trace_calls cwd self frame event)) = base_dir self.
Proof.
  destruct (String.eqb_spec event "call") as [->|Hc].
  - rewrite trace_calls_call.
    destruct (eligible _ _ _); [|reflexivity].
    destruct (relative_to _ _); [|reflexivity].
    destruct (bool_decide _); [reflexivity|].
    destruct (complete _); reflexivity.
  - destruct (String.eqb_spec event "return") as [->|Hr].
    + rewrite trace_calls_return.
      destruct (last _) as [[[f g] l]|]; [|reflexivity].
      destruct (_ && _); reflexivity.
    + now rewrite trace_calls_other.
Qed.

(** A hook that raises has changed nothing. *)
Lemma trace_calls_raises cwd self frame event self' e :
  trace_calls cwd self frame event = (self', Raises e) ->
  self' = self /\ event = "call" /\ eligible cwd self frame = true
  /\ relative_to (co_filename frame) (base_dir self) = Raise e.
Proof.
  destruct (String.eqb_spec event "call") as [->|Hc].
  - rewrite trace_calls_call.
    destruct (eligible _ _ _); [|discriminate].
    destruct (relative_to _ _) as [rel|e'].
    + destruct (bool_decide _); [discriminate|].
      destruct (complete _); discriminate.
    + intros [= <- <-]. auto.
  - destruct (String.eqb_spec event "return") as [->|Hr].
    + rewrite trace_calls_return.
      destruct (last _) as [[[f g] l]|]; [|discriminate].
      destruct (_ && _); discriminate.
    + rewrite trace_calls_other by assumption. discriminate.
Qed.

Lemma eligible_base cwd a b frame :
  base_dir a = base_dir b -> eligible cwd a frame = eligible cwd b frame.
Proof. unfold eligible, _in_base_dir. now intros ->. Qed.


(** *** First-seen order *)

Lemma first_seen_into_app seen a b :
  first_seen_into seen (a ++ b) = first_seen_into (first_seen_into seen a) b.
Proof.
  revert seen. induction a as [|r a IH]; intros seen; simpl; [reflexivity|].
  destruct (bool_decide (r ∈ seen)); apply IH.
Qed.

Lemma first_seen_into_elem seen edges r :
  r ∈ first_seen_into seen edges <-> r ∈ seen \/ r ∈ edges.
Proof.
  revert seen. induction edges as [|x edges IH]; intros seen; simpl.
  - rewrite elem_of_nil. tauto.
  - rewrite elem_of_cons. case_bool_decide as Hx; rewrite IH.
    + split; [tauto|]. intros [H|[->|H]]; auto.
    + rewrite elem_of_app, list_elem_of_singleton. tauto.
Qed.

Lemma first_seen_into_NoDup seen edges :
  NoDup seen -> NoDup (first_seen_into seen edges).
Proof.
  revert seen. induction edges as [|x edges IH]; intros seen Hnd; simpl; [exact Hnd|].
  case_bool_decide as Hx; apply IH; [exact Hnd|].
  apply NoDup_app. split; [exact Hnd|]. split.
  - intros y Hy Hy'. apply list_elem_of_singleton in Hy'. now subst.
  - apply NoDup_singleton.
Qed.

(** The list under construction is never reordered: what was seen stays
    in front. *)
Lemma first_seen_into_prefix seen edges :
  seen `prefix_of` first_seen_into seen edges.
Proof.
  revert seen. induction edges as [|x edges IH]; intros seen; simpl; [reflexivity|].
  case_bool_decide; [apply IH|].
  etrans; [|apply IH]. now apply prefix_app_r.
Qed.

(** *** The set of keys mirrors the list of records *)

Lemma keyed_init cwd base : keyed (__init__ cwd base).
Proof.
  intros k. simpl. split.
  - intros H. now apply not_elem_of_empty in H.
  - intros (r & H & _). now apply elem_of_nil in H.
Qed.

Lemma keyed_member self r :
  keyed self -> (dumps_record r ∈ call_records_set self <-> r ∈ call_records self).
Proof.
  intros K. rewrite (K (dumps_record r)). split.
  - intros (r' & H & E). apply dumps_record_inj in E. now subst.
  - intros H. now exists r.
Qed.

Lemma keyed_set_stack self st : keyed self -> keyed (set_stack self st).
Proof. intros K k. exact (K k). Qed.

Lemma keyed_add_record self r :
  keyed self -> keyed (add_record self (dumps_record r) r).
Proof.
  intros K k. simpl. rewrite elem_of_union, elem_of_singleton, (K k). split.
  - intros [(r' & H & E)| ->].
    + exists r'. split; [apply elem_of_app; now left | exact E].
    + exists r. split; [apply elem_of_app; right; apply list_elem_of_singleton|]; reflexivity.
  - intros (r' & H & E). apply elem_of_app in H as [H|H].
    + left. now exists r'.
    + apply list_elem_of_singleton in H. subst. now right.
Qed.

(** What one invocation does to the record list. *)
Lemma trace_calls_records cwd self frame event self' :
  keyed self ->
  trace_calls cwd self frame event = (self', Returns) ->
  keyed self' /\
  call_records self' = first_seen_into (call_records self) (candidate cwd self frame event).
Proof.
  intros K. unfold candidate.
  destruct (String.eqb_spec event "call") as [->|Hc]; simpl andb.
  - rewrite trace_calls_call.
    destruct (eligible _ _ _); [|intros [= <-]; auto].
    destruct (relative_to _ _) as [rel|e]; [|discriminate].
    fold (callee_of rel frame). fold (edge_of self rel frame).
    case_bool_decide as Hk.
    + intros [= <-]. split; [now apply keyed_set_stack|].
      apply (keyed_member _ _ K) in Hk.
      destruct (complete _); simpl; [|reflexivity].
      now rewrite bool_decide_eq_true_2.
    + destruct (complete _); intros [= <-].
      * split; [now apply (keyed_add_record (pushed self rel frame)), keyed_set_stack|].
        simpl. rewrite bool_decide_eq_false_2; [reflexivity|].
        now rewrite <- (keyed_member _ _ K).
      * split; [now apply keyed_set_stack | reflexivity].
  - destruct (String.eqb_spec event "return") as [->|Hr].
    + rewrite trace_calls_return.
      destruct (last _) as [[[f g] l]|]; [|intros [= <-]; auto].
      destruct (_ && _); intros [= <-]; auto using keyed_set_stack.
    + rewrite trace_calls_other by assumption. intros [= <-]. auto.
Qed.

Lemma feed_records cwd self events :
  keyed self ->
  call_records (fst (feed cwd self events))
  = first_seen_into (call_records self) (candidates cwd self events).
Proof.
  revert self. induction events as [|[frame event] rest IH]; intros self K; simpl;
    [reflexivity|].
  destruct (trace_calls cwd self frame event) as [self' [|e]] eqn:E.
  - destruct (trace_calls_records _ _ _ _ _ K E) as [K' R].
    rewrite first_seen_into_app, <- R. now apply IH.
  - apply trace_calls_raises in E as [-> _]. reflexivity.
Qed.


(** *** Where recorded endpoints come from *)

Lemma from_call_mono cwd t0 ev1 ev2 e :
  (forall x, x ∈ ev1 -> x ∈ ev2) -> from_call cwd t0 ev1 e -> from_call cwd t0 ev2 e.
Proof. intros Hs (f & rel & H & R). exists f, rel. split; [now apply Hs | exact R]. Qed.

Lemma sourced_mono cwd t0 ev1 ev2 self :
  (forall x, x ∈ ev1 -> x ∈ ev2) -> sourced cwd t0 ev1 self -> sourced cwd t0 ev2 self.
Proof.
  intros Hs (B & S & R). split; [exact B|]. split.
  - eapply Forall_impl; [exact S|]. intros en. now apply from_call_mono.
  - eapply Forall_impl; [exact R|]. intros r [? ?].
    split; eapply from_call_mono; eauto.
Qed.

Lemma last_elem {A} (l : list A) (x : A) : last l = Some x -> x ∈ l.
Proof.
  intros H. apply last_Some in H as [l' ->].
  apply elem_of_app. right. apply list_elem_of_singleton. reflexivity.
Qed.

Lemma Forall_removelast {A} (P : A -> Prop) (l : list A) :
  Forall P l -> Forall P (removelast l).
Proof.
  induction 1 as [|x l Hx Hl IH]; simpl; [constructor|].
  destruct l; [constructor | constructor; assumption].
Qed.

Lemma caller_context_last st f g l :
  @last entry st = Some (f, g, l) -> caller_context st = entry_endpoint (f, g, l).
Proof. unfold caller_context. now intros ->. Qed.

Lemma sourced_step cwd t0 seen self frame event self' out :
  sourced cwd t0 seen self ->
  trace_calls cwd self frame event = (self', out) ->
  sourced cwd t0 (seen ++ [(frame, event)]) self'.
Proof.
  intros S E.
  assert (Hsub : forall x, x ∈ seen -> x ∈ seen ++ [(frame, event)])
    by (intros x Hx; apply elem_of_app; now left).
  pose proof (sourced_mono _ _ _ _ _ Hsub S) as (B & St & R).
  destruct (String.eqb_spec event "call") as [->|Hc].
  - rewrite trace_calls_call in E.
    destruct (eligible cwd self frame) eqn:El; [|injection E as <- _; now split].
    destruct (relative_to _ _) as [rel|e] eqn:Rel; [|injection E as <- _; now split].
    assert (Hnew : from_call cwd t0 (seen ++ [(frame, "call")]) (callee_of rel frame)).
    { exists frame, rel. split; [|split; [|split]].
      - apply elem_of_app. right. apply list_elem_of_singleton. reflexivity.
      - now rewrite <- (eligible_base cwd self t0).
      - now rewrite <- B.
      - reflexivity. }
    assert (St' : Forall (fun en => from_call cwd t0 (seen ++ [(frame, "call")])
                                      (entry_endpoint en))
                    (call_stack self ++ [entry_of rel frame])).
    { apply Forall_app. split; [exact St|]. constructor; [exact Hnew | constructor]. }
    destruct (bool_decide _); [injection E as <- _; now split|].
    destruct (complete (edge_of self rel frame)) eqn:C; injection E as <- _;
      [|now split].
    split; [exact B|]. split; [exact St'|]. simpl.
    apply Forall_app. split; [exact R|]. constructor; [|constructor].
    split; [|exact Hnew]. simpl.
    unfold complete, edge_of, caller_context in C. simpl in C.
    destruct (last (call_stack self)) as [[[f g] l]|] eqn:L; [|discriminate C].
    rewrite (caller_context_last _ _ _ _ L).
    apply last_elem in L. rewrite Forall_forall in St. exact (St _ L).
  - destruct (String.eqb_spec event "return") as [->|Hr].
    + rewrite trace_calls_return in E.
      destruct (last _) as [[[f g] l]|]; [|injection E as <- _; now split].
      destruct (_ && _); injection E as <- _; [|now split].
      split; [exact B|]. split; [|exact R]. simpl. now apply Forall_removelast.
    + rewrite trace_calls_other in E by assumption. injection E as <- _. now split.
Qed.

Lemma sourced_feed cwd t0 events : forall seen self,
  sourced cwd t0 seen self ->
  sourced cwd t0 (seen ++ events) (fst (feed cwd self events)).
Proof.
  induction events as [|[frame event] rest IH]; intros seen self S; simpl.
  - now rewrite app_nil_r.
  - destruct (trace_calls cwd self frame event) as [self' [|e]] eqn:E.
    + replace (seen ++ (frame, event) :: rest) with ((seen ++ [(frame, event)]) ++ rest)
        by now rewrite <- app_assoc.
      apply IH. eapply sourced_step; eauto.
    + apply trace_calls_raises in E as [-> _]. simpl.
      eapply sourced_mono; [|exact S]. intros x Hx. apply elem_of_app. now left.
Qed.

(** *** Ineligible calls *)

Lemma ineligible_call cwd self frame :
  eligible cwd self frame = false ->
  trace_calls cwd self frame "call" = (self, Returns).
Proof. intros H. now rewrite trace_calls_call, H. Qed.

Lemma ineligible_call_feed cwd frame before : forall self after,
  eligible cwd self frame = false ->
  feed cwd self (before ++ (frame, "call") :: after) = feed cwd self (before ++ after).
Proof.
  induction before as [|[f ev] before IH]; intros self after H; simpl.
  - now rewrite ineligible_call.
  - destruct (trace_calls cwd self f ev) as [self' [|e]] eqn:E; [|reflexivity].
    apply IH. rewrite <- H. apply eligible_base.
    pose proof (trace_calls_base_dir cwd self f ev) as B. now rewrite E in B.
Qed.


(** An out-of-scope call between two in-scope calls, on a fresh tracer:
    the export is the one edge from the outer to the inner call. *)
Lemma nested_out_of_scope_call cwd base (A X B : Frame) ra rb la lb :
  let t0 := __init__ cwd (Some base) in
  eligible cwd t0 A = true -> eligible cwd t0 B = true ->
  eligible cwd t0 X = false ->
  relative_to (co_filename A) base = Ok ra ->
  relative_to (co_filename B) base = Ok rb ->
  f_lineno A = Some la -> f_lineno B = Some lb ->
  feed cwd t0 [ (A, "call"); (X, "call"); (B, "call") ]
  = (add_record (pushed (pushed t0 ra A) rb B)
       (dumps_record {| caller := callee_of ra A; callee := callee_of rb B |})
       {| caller := callee_of ra A; callee := callee_of rb B |}, Returns).
Proof.
  intros t0 HA HB HX RA RB LA LB. cbn [feed].
  rewrite trace_calls_call, HA. cbn [base_dir t0 __init__]. rewrite RA.
  rewrite bool_decide_eq_false_2 by apply not_elem_of_empty.
  change (complete (edge_of t0 ra A)) with false. cbv iota.
  rewrite ineligible_call by (rewrite <- HX; now apply eligible_base).
  rewrite trace_calls_call.
  rewrite (eligible_base cwd (pushed t0 ra A) t0 B eq_refl), HB.
  cbn [base_dir pushed set_stack t0 __init__]. rewrite RB.
  rewrite bool_decide_eq_false_2 by apply not_elem_of_empty.
  assert (E : edge_of (set_stack t0 ([] ++ [entry_of ra A])) rb B
              = {| caller := callee_of ra A; callee := callee_of rb B |}).
  { unfold edge_of, callee_of, caller_context, entry_of. simpl. reflexivity. }
  unfold pushed. cbn [call_stack t0 __init__]. rewrite E.
  unfold complete, callee_of. simpl. rewrite LA, LB. reflexivity.
Qed.

(** *** Laws of a single invocation *)

(** Depth of the stack across one invocation: an eligible call that
    completes adds one, a return that meets the test on the top removes
    one, everything else leaves the stack as it is. *)
Lemma stack_depth_step cwd self frame event :
  let '(self', out) := trace_calls cwd self frame event in
  (event = "call" -> eligible cwd self frame = true -> out = Returns ->
     exists rel, call_stack self' = call_stack self ++ [entry_of rel frame])
  /\ (event = "call" -> eligible cwd self frame = false -> self' = self)
  /\ (event = "return" ->
        call_stack self' = call_stack self
        \/ S (length (call_stack self')) = length (call_stack self))
  /\ (event <> "call" -> event <> "return" -> self' = self).
Proof.
  destruct (String.eqb_spec event "call") as [->|Hc].
  - rewrite trace_calls_call.
    destruct (eligible cwd self frame).
    + destruct (relative_to _ _) as [rel|e].
      * destruct (bool_decide _); [|destruct (complete _)];
          (repeat split; try discriminate; try congruence; intros; now exists rel).
      * repeat split; try discriminate; congruence.
    + repeat split; try discriminate; congruence.
  - destruct (String.eqb_spec event "return") as [->|Hr].
    + rewrite trace_calls_return.
      destruct (last (call_stack self)) as [[[f g] l]|] eqn:L.
      * destruct (_ && _); repeat split; try discriminate; try congruence; intros _.
        -- right. apply last_Some in L as [st ->]. simpl.
           rewrite removelast_last, length_app. simpl. lia.
        -- now left.
      * repeat split; try discriminate; try congruence. now left.
    + rewrite trace_calls_other by assumption. repeat split; congruence.
Qed.

(** The gate on recording: the record list changes only by one edge
    appended at the end, and only when the stack was not empty, no field of
    the edge is null and its key was not in the set. *)
Lemma record_gate cwd self frame event :
  let self' := fst (trace_calls cwd self frame event) in
  call_records self' = call_records self
  \/ exists rel,
       call_records self' = call_records self ++ [edge_of self rel frame]
       /\ event = "call" /\ eligible cwd self frame = true
       /\ call_stack self <> []
       /\ complete (edge_of self rel frame) = true
       /\ dumps_record (edge_of self rel frame) ∉ call_records_set self.
Proof.
  destruct (String.eqb_spec event "call") as [->|Hc].
  - rewrite trace_calls_call.
    destruct (eligible cwd self frame) eqn:El; [|now left].
    destruct (relative_to _ _) as [rel|e]; [|now left].
    case_bool_decide as Hk; [now left|].
    destruct (complete _) eqn:C; [|now left].
    right. exists rel. repeat split; auto.
    intros E. unfold complete, edge_of, caller_context in C. rewrite E in C.
    discriminate C.
  - left. destruct (String.eqb_spec event "return") as [->|Hr].
    + rewrite trace_calls_return.
      destruct (last _) as [[[f g] l]|]; [|reflexivity].
      destruct (_ && _); reflexivity.
    + now rewrite trace_calls_other.
Qed.

(** When the hook raises. *)
Lemma hook_raises_iff cwd self frame event e :
  snd (trace_calls cwd self frame event) = Raises e <->
  event = "call" /\ eligible cwd self frame = true
  /\ relative_to (co_filename frame) (base_dir self) = Raise e.
Proof.
  split.
  - destruct (trace_calls cwd self frame event) as [self' out] eqn:E. simpl.
    intros ->. apply trace_calls_raises in E. tauto.
  - intros (-> & El & R). now rewrite trace_calls_call, El, R.
Qed.

(** *** The claims about the tracer *)

(** What the return branch does.  On a return event the stack is popped
    if and only if it is not empty, the path stored in its top entry
    passes [_in_base_dir] as the code applies it (the stored path is
    relative to the base directory and is resolved against the working
    directory), the stored name passes [_is_function] and is the name of
    the returning function; otherwise the tracer is left as it was.  The
    record list is never touched and the hook returns. *)
Lemma return_pops_iff (cwd : string) (self : CallTracer) (frame : Frame) :
  eligible cwd self frame = true ->
  let matching :=
    exists st top_file top_func top_line,
      call_stack self = st ++ [(top_file, top_func, top_line)]
      /\ _in_base_dir cwd self top_file = true
      /\ _is_function top_func = true
      /\ top_func = co_name frame in
  let self' := fst (trace_calls cwd self frame "return") in
  snd (trace_calls cwd self frame "return") = Returns
  /\ (matching ->
        self' = set_stack self (removelast (call_stack self))
        /\ S (length (call_stack self')) = length (call_stack self))
  /\ (~ matching -> self' = self)
  /\ call_records self' = call_records self.
Proof.
  intros _. cbv zeta. rewrite trace_calls_return.
  destruct (last (call_stack self)) as [[[f g] l]|] eqn:L.
  - apply last_Some in L as [st Hst].
    destruct (_in_base_dir cwd self f && _is_function g && String.eqb g (co_name frame))
      eqn:T; simpl.
    + split; [reflexivity|]. split; [|split; [|reflexivity]].
      * intros _. split; [reflexivity|].
        rewrite Hst, removelast_last, length_app. simpl. lia.
      * intros N. exfalso. apply N. exists st, f, g, l.
        apply andb_prop in T as [T T3]. apply andb_prop in T as [T1 T2].
        apply String.eqb_eq in T3. auto.
    + split; [reflexivity|]. split; [|split; [reflexivity|reflexivity]].
      intros (st' & f' & g' & l' & Hs & T1 & T2 & T3). exfalso.
      rewrite Hst in Hs. apply app_inj_tail in Hs as [_ Hs].
      injection Hs as <- <- <-.
      rewrite T1, T2, T3, String.eqb_refl in T. discriminate T.
  - simpl. split; [reflexivity|]. split; [|split; [reflexivity|reflexivity]].
    intros (st' & f' & g' & l' & Hs & _). exfalso.
    rewrite Hs, last_snoc in L. discriminate L.
Qed.

Lemma return_pops_iff_example :
  eligible "/proj" (fst (trace_calls "/proj" demo_tracer demo_outer "call"))
    demo_outer = true
  /\ snd (trace_calls "/proj"
            (fst (trace_calls "/proj" demo_tracer demo_outer "call"))
            demo_outer "return") = Returns.
Proof.
  split; [reflexivity|].
  exact (proj1 (return_pops_iff "/proj"
                  (fst (trace_calls "/proj" demo_tracer demo_outer "call"))
                  demo_outer eq_refl)).
Defined.


(** C3.  Within one tracer the exported list is the list of the edges
    asked to be recorded, each kept once at the place where it was first
    seen: however often the same (caller, callee) edge is recorded, the
    export holds it exactly once.  Two edges have the same key of the
    sorted-key serialization exactly when their six fields are equal. *)
Theorem C3_dedup_first_seen (cwd : string) (base : option string)
    (events : list (Frame * string)) :
  export (fst (feed cwd (__init__ cwd base) events))
  = first_seen (candidates cwd (__init__ cwd base) events)
  /\ NoDup (export (fst (feed cwd (__init__ cwd base) events)))
  /\ (forall r, r ∈ candidates cwd (__init__ cwd base) events ->
        count_occ CallRecord_eq_dec
          (export (fst (feed cwd (__init__ cwd base) events))) r = 1)
  /\ (forall r1 r2, dumps_record r1 = dumps_record r2 <-> r1 = r2).
Proof.
  assert (E : export (fst (feed cwd (__init__ cwd base) events))
              = first_seen (candidates cwd (__init__ cwd base) events)).
  { unfold export, first_seen.
    now rewrite (feed_records _ _ _ (keyed_init cwd base)). }
  assert (N : NoDup (first_seen (candidates cwd (__init__ cwd base) events))).
  { apply first_seen_into_NoDup. constructor. }
  rewrite E. split; [reflexivity|]. split; [exact N|]. split.
  - intros r Hr. apply NoDup_count_occ'; [now apply NoDup_ListNoDup|].
    apply list_elem_of_In, first_seen_into_elem. now right.
  - intros r1 r2. split; [apply dumps_record_inj | now intros ->].
Qed.

Lemma C3_dedup_first_seen_witness :
  export (fst (feed "/proj" demo_tracer
                 [ (demo_outer, "call"); (demo_inner, "call");
                   (demo_inner, "return"); (demo_inner, "call");
                   (demo_inner, "return"); (demo_inner, "call") ]))
  = [ edge_of (pushed demo_tracer "a.py" demo_outer) "pkg/b.py" demo_inner ].
Proof.
  rewrite (proj1 (C3_dedup_first_seen "/proj" None _)). reflexivity.
Defined.

(** C4.  A call event that fails the filter leaves the tracer exactly as
    it was (nothing pushed, depth and caller context unchanged, nothing
    recorded); a stream with such an event behaves as the stream without
    it; both sides of every recorded edge are the called sides of call
    events that pass the filter, hence never this event; and when the
    event lies between an in-scope call and an in-scope call made below
    it, the edge from the first to the second is recorded. *)
Theorem C4_ineligible_call_transparent (cwd : string) (self : CallTracer)
    (frame : Frame) :
  eligible cwd self frame = false ->
  trace_calls cwd self frame "call" = (self, Returns)
  /\ (forall before after,
        feed cwd self (before ++ (frame, "call") :: after)
        = feed cwd self (before ++ after))
  /\ (forall events r,
        r ∈ export (fst (feed cwd (__init__ cwd (Some (base_dir self))) events)) ->
        exists a b,
          endpoint_source cwd self events (caller r) a /\ a <> frame
          /\ endpoint_source cwd self events (callee r) b /\ b <> frame)
  /\ (forall A B ra rb la lb,
        eligible cwd self A = true -> eligible cwd self B = true ->
        relative_to (co_filename A) (base_dir self) = Ok ra ->
        relative_to (co_filename B) (base_dir self) = Ok rb ->
        f_lineno A = Some la -> f_lineno B = Some lb ->
        export (fst (feed cwd (__init__ cwd (Some (base_dir self)))
                       [ (A, "call"); (frame, "call"); (B, "call") ]))
        = [ {| caller := callee_of ra A; callee := callee_of rb B |} ]).
Proof.
  intros H. split; [now apply ineligible_call|].
  split; [intros; now apply ineligible_call_feed|]. split.
  - intros events r Hr.
    assert (S0 : sourced cwd self [] (__init__ cwd (Some (base_dir self)))).
    { split; [reflexivity|]. split; constructor. }
    pose proof (sourced_feed cwd self events [] _ S0) as (_ & _ & R).
    simpl in R. rewrite Forall_forall in R.
    destruct (R r Hr) as [(a & ra & Ha & Ea & Ra & Ca) (b & rb & Hb & Eb & Rb & Cb)].
    exists a, b. repeat split; eauto; intros ->; congruence.
  - intros A B ra rb la lb HA HB RA RB LA LB.
    rewrite (nested_out_of_scope_call cwd (base_dir self) A frame B ra rb la lb);
      try assumption; reflexivity.
Qed.

Lemma C4_ineligible_call_transparent_witness :
  eligible "/proj" demo_tracer demo_lib = false
  /\ export (fst (feed "/proj" demo_tracer
                    [ (demo_outer, "call"); (demo_lib, "call");
                      (demo_inner, "call") ]))
     = [ {| caller := callee_of "a.py" demo_outer;
            callee := callee_of "pkg/b.py" demo_inner |} ].
Proof.
  split; [reflexivity|].
  exact (proj2 (proj2 (proj2
           (C4_ineligible_call_transparent "/proj" demo_tracer demo_lib eq_refl)))
           demo_outer demo_inner "a.py" "pkg/b.py" 3%Z 9%Z
           eq_refl eq_refl eq_refl eq_refl eq_refl eq_refl).
Defined.


(** C1.  The return of a function outside the base directory that has the
    name of the entry on top of the stack pops that entry: after the
    in-scope call of [run], the out-of-scope call of another [run] and its
    return, the stack is empty although the one eligible call has not
    returned, and the in-scope call that follows is recorded without an
    edge.  The depth is therefore not the number of unmatched eligible
    calls, and an ineligible event has changed it. *)
Theorem C1_ineligible_return_pops :
  eligible "/proj" demo_tracer demo_run = true
  /\ eligible "/proj" demo_tracer demo_lib = false
  /\ List.length (call_stack (fst (feed "/proj" demo_tracer
                               [ (demo_run, "call"); (demo_lib, "call") ]))) = 1
  /\ List.length (call_stack (fst (feed "/proj" demo_tracer
                               [ (demo_run, "call"); (demo_lib, "call");
                                 (demo_lib, "return") ]))) = 0
  /\ export (fst (feed "/proj" demo_tracer
                    [ (demo_run, "call"); (demo_lib, "call");
                      (demo_lib, "return"); (demo_inner, "call") ])) = []
  /\ export (fst (feed "/proj" demo_tracer
                    [ (demo_run, "call"); (demo_inner, "call") ]))
     = [ edge_of (pushed demo_tracer "a.py" demo_run) "pkg/b.py" demo_inner ].
Proof. repeat split. Qed.

(** C5.  An eligible call event whose file name is relative: the filter
    accepts it (the name is resolved against the working directory), the
    stack is empty, yet the relative path is computed from the name as
    given, the hook raises and nothing is pushed. *)
Theorem C5_entry_point_not_pushed :
  eligible "/proj" demo_tracer demo_relative = true
  /\ call_stack demo_tracer = []
  /\ trace_calls "/proj" demo_tracer demo_relative "call"
     = (demo_tracer, Raises ValueError).
Proof. repeat split. Qed.

(** C6.  The hook raises [ValueError] on a call event whose file lies
    under the base directory once resolved, but whose name as given is not
    below it component by component: a relative name, or a name that
    leaves the base directory and comes back. *)
Theorem C6_hook_raises :
  snd (trace_calls "/proj" demo_tracer (mkFrame "a.py" "main" (Some 1%Z)) "call")
  = Raises ValueError
  /\ snd (trace_calls "/proj" demo_tracer
            (mkFrame "/tmp/../proj/a.py" "main" (Some 1%Z)) "call")
     = Raises ValueError.
Proof. split; reflexivity. Qed.

(** C2.  The tracer is given the base directory [/proj] and runs in the
    working directory [/work].  The call of [outer] in [/proj/a.py] is
    eligible and is pushed as [a.py], its path below the base directory.
    At the return of the same frame, an eligible return event, the stack
    is not empty, the top entry is the entry of that frame (its file lies
    under the base directory and has the extension, its name is an
    identifier) and its name is the returning name: yet the stack is not
    popped, because [_in_base_dir] resolves the stored [a.py] against the
    working directory, to [/work/a.py].  When the working directory is
    the base directory, the same two events leave the stack empty. *)
Theorem C2_matching_return_not_popped :
  let tracer := __init__ "/work" (Some "/proj") in
  let called := fst (trace_calls "/work" tracer demo_outer "call") in
  eligible "/work" tracer demo_outer = true
  /\ call_stack called = [ ("a.py", "outer", Some 3%Z) ]
  /\ relative_to (co_filename demo_outer) (base_dir tracer) = Ok "a.py"
  /\ _is_function "outer" = true
  /\ co_name demo_outer = "outer"
  /\ eligible "/work" called demo_outer = true
  /\ abspath "/work" "a.py" = "/work/a.py"
  /\ _in_base_dir "/work" called "a.py" = false
  /\ trace_calls "/work" called demo_outer "return" = (called, Returns)
  /\ call_stack (fst (feed "/proj" (__init__ "/proj" (Some "/proj"))
                        [ (demo_outer, "call"); (demo_outer, "return") ])) = [].
Proof. repeat split. Qed.

(** With a base directory other than the working directory the test on
    the top of the stack resolves the stored relative path against the
    working directory and fails: the matching return does not pop. *)
Example stale_entry_when_cwd_differs :
  let tracer := __init__ "/work" (Some "/proj") in
  eligible "/work" tracer demo_outer = true
  /\ call_stack (fst (feed "/work" tracer
                        [ (demo_outer, "call"); (demo_outer, "return") ]))
     = [ ("a.py", "outer", Some 3%Z) ].
Proof. split; reflexivity. Qed.

(** *** The cases of the repository's tests *)

Example test_is_function :
  map _is_function
    [ "valid_function"; "_private_function"; "func123";
      "123invalid"; "invalid-name"; "class" ]
  = [ true; true; true; false; false; false ].
Proof. reflexivity. Qed.

Example test_in_base_dir :
  map (_in_base_dir "/proj" demo_tracer)
    [ "/proj/tmpab12.py"; "/tmp/outside.py"; "/proj/tmpab12.txt" ]
  = [ true; false; false ].
Proof. reflexivity. Qed.

Example test_trace_calls_basic :
  let frame := mkFrame "/proj/test.py" "test_function" (Some 10%Z) in
  let after_call := fst (trace_calls "/proj" demo_tracer frame "call") in
  let after_return := fst (trace_calls "/proj" after_call frame "return") in
  call_stack after_call = [ ("test.py", "test_function", Some 10%Z) ]
  /\ call_records after_call = []
  /\ call_stack after_return = [].
Proof. repeat split. Qed.

(** The end-to-end case of the specification: [test_a] calls [helper],
    which calls [inner]; the export is the two edges, without the root. *)
Example end_to_end :
  let test_a := mkFrame "/proj/tests/test_a.py" "test_a" (Some 4%Z) in
  let helper := mkFrame "/proj/pkg/h.py" "helper" (Some 1%Z) in
  let inner := mkFrame "/proj/pkg/h.py" "inner" (Some 7%Z) in
  map dumps_record
    (export (fst (feed "/proj" demo_tracer
                    [ (test_a, "call"); (helper, "call"); (inner, "call");
                      (inner, "return"); (helper, "return");
                      (test_a, "return") ])))
  = map dumps_record
      [ {| caller := callee_of "tests/test_a.py" test_a;
           callee := callee_of "pkg/h.py" helper |};
        {| caller := callee_of "pkg/h.py" helper;
           callee := callee_of "pkg/h.py" inner |} ].
Proof. reflexivity. Qed.

End HooksFacts.

(** ** Facts about discovery and orchestration *)

Module TraceFacts.
Import Py Trace.

#[local] Arguments String.append !s1 s2 : simpl nomatch.

(** *** The shuffle *)

Lemma insert_Permutation (l : list string) (j : nat) (a b : string) :
  l !! j = Some b -> <[j := a]> l ≡ₚ a :: delete j l.
Proof.
  revert j. induction l as [|x l IH]; intros [|j]; simpl; intros H; try discriminate.
  - reflexivity.
  - rewrite (IH _ H). apply Permutation_swap.
Qed.

Lemma swap_Permutation (x : list string) (i j : nat) : swap x i j ≡ₚ x.
Proof.
  unfold swap.
  destruct (x !! i) as [a|] eqn:Hi; [|reflexivity].
  destruct (x !! j) as [b|] eqn:Hj; [|reflexivity].
  destruct (decide (i = j)) as [->|Hne].
  - assert (a = b) by congruence. subst b.
    rewrite (list_insert_id x j a Hi). now rewrite (list_insert_id x j a Hi).
  - rewrite (insert_Permutation (<[i:=b]> x) j a b)
      by (rewrite list_lookup_insert_ne; auto).
    revert i j Hi Hj Hne. induction x as [|h x IH]; intros [|i] [|j] Hi Hj Hne;
      simpl in *; try discriminate; try congruence.
    + injection Hi as ->. apply Permutation_skip.
      symmetry. now apply delete_Permutation.
    + injection Hj as ->.
      rewrite (insert_Permutation x i b a Hi), Permutation_swap.
      apply Permutation_skip. symmetry. now apply delete_Permutation.
    + rewrite Permutation_swap. apply Permutation_skip. apply IH; auto.
Qed.

Lemma shuffle_from_Permutation (I : Interpreter) (i : nat) : forall x g,
  fst (shuffle_from I i x g) ≡ₚ x.
Proof.
  induction i as [|i IH]; intros x g; simpl; [reflexivity|].
  destruct (randbelow I (S (S i)) g) as [j g'].
  rewrite IH. apply swap_Permutation.
Qed.

Lemma shuffle_Permutation (I : Interpreter) x g : fst (shuffle I x g) ≡ₚ x.
Proof. apply shuffle_from_Permutation. Qed.


(** A swap done twice is undone, so the shuffle, for a given state of the
    generator, maps different lists to different lists. *)
Lemma swap_involutive (x : list string) (i j : nat) :
  swap (swap x i j) i j = x.
Proof.
  unfold swap at 2.
  destruct (x !! i) as [a|] eqn:Hi.
  2:{ unfold swap. now rewrite Hi. }
  destruct (x !! j) as [b|] eqn:Hj.
  2:{ unfold swap. now rewrite Hi, Hj. }
  pose proof (lookup_lt_Some _ _ _ Hi) as Li.
  pose proof (lookup_lt_Some _ _ _ Hj) as Lj.
  destruct (decide (i = j)) as [->|Hne].
  - assert (a = b) by congruence. subst b.
    rewrite !(list_insert_id x j a Hi).
    unfold swap. rewrite Hi. now rewrite !(list_insert_id x j a Hi).
  - unfold swap.
    rewrite (list_lookup_insert_ne _ j i a) by auto.
    rewrite (list_lookup_insert_eq x i b) by assumption.
    rewrite (list_lookup_insert_eq _ j a) by (now rewrite length_insert).
    apply list_eq. intros k.
    destruct (decide (k = j)) as [->|Hkj].
    { rewrite list_lookup_insert_eq by (rewrite !length_insert; lia). congruence. }
    rewrite list_lookup_insert_ne by auto.
    destruct (decide (k = i)) as [->|Hki].
    { rewrite list_lookup_insert_eq by (rewrite !length_insert; lia). congruence. }
    now rewrite !list_lookup_insert_ne by auto.
Qed.

Lemma shuffle_from_inj (I : Interpreter) (i : nat) : forall x y (g : rng I),
  fst (shuffle_from I i x g) = fst (shuffle_from I i y g) -> x = y.
Proof.
  induction i as [|i IH]; intros x y g; simpl; [auto|].
  destruct (randbelow I (S (S i)) g) as [j g'].
  intros H. apply IH in H.
  rewrite <- (swap_involutive x (S i) j), H. apply swap_involutive.
Qed.

Lemma shuffle_inj (I : Interpreter) (x y : list string) (g : rng I) :
  fst (shuffle I x g) = fst (shuffle I y g) -> x = y.
Proof.
  intros H.
  assert (L : List.length x = List.length y).
  { rewrite <- (Permutation_length (shuffle_Permutation I x g)).
    rewrite <- (Permutation_length (shuffle_Permutation I y g)).
    now rewrite H. }
  unfold shuffle in H. rewrite L in H. now apply shuffle_from_inj in H.
Qed.

(** The shuffle does not look at the order of sets. *)
Lemma shuffle_from_with_set_order (I : Interpreter) order order_NoDup order_elem
    (i : nat) : forall x (g : rng I),
  shuffle_from (with_set_order I order order_NoDup order_elem) i x g
  = shuffle_from I i x g.
Proof.
  induction i as [|i IH]; intros x g; simpl; [reflexivity|].
  destruct (randbelow I (S (S i)) g) as [j g']. apply IH.
Qed.

Lemma shuffle_with_set_order (I : Interpreter) order order_NoDup order_elem
    (x : list string) (g : rng I) :
  shuffle (with_set_order I order order_NoDup order_elem) x g = shuffle I x g.
Proof. apply shuffle_from_with_set_order. Qed.

(** *** Discovery *)

Lemma collect_shuffled (I : Interpreter) (g : rng I) collectors random_seed :
  fst (collect_tests I g collectors true random_seed None)
  = fst (shuffle I (iter_set I (canonical_ids collectors)) (seed I random_seed)).
Proof.
  unfold collect_tests. now destruct (shuffle I _ _).
Qed.

Lemma slice_to_pos {A} (n : Z) (l : list A) :
  (0 < n)%Z -> slice_to n l = take (Z.to_nat n) l.
Proof. intros H. unfold slice_to. destruct (Z.leb_spec 0 n); [reflexivity | lia]. Qed.

(** Within one process: with shuffling requested, two calls of
    [collect_tests] over discovery reports with the same list of candidate
    identifiers and with the same seed give the same list in the same
    order, whatever the state of the generator was when each call
    began. *)
Lemma shuffle_same_seed_one_process (I : Interpreter) (g1 g2 : rng I)
    (collectors1 collectors2 : list (list CollectItem)) (random_seed : Z)
    (max_tests : option Z) :
  canonical_ids collectors1 = canonical_ids collectors2 ->
  collect_tests I g1 collectors1 true random_seed max_tests
  = collect_tests I g2 collectors2 true random_seed max_tests.
Proof. intros H. unfold collect_tests. now rewrite H. Qed.

Lemma shuffle_same_seed_one_process_example :
  canonical_ids sample_report = canonical_ids [List.concat sample_report]
  /\ collect_tests sample_interpreter 1%Z sample_report true 42 None
     = collect_tests sample_interpreter 2%Z [List.concat sample_report] true 42 None.
Proof.
  split; [reflexivity|].
  exact (shuffle_same_seed_one_process sample_interpreter 1%Z 2%Z sample_report
           [List.concat sample_report] 42 None eq_refl).
Defined.

(** C8.  Two runs of [collect_tests] are two processes: the generator and
    the seed are the same, the order in which [list(set(...))] lists the
    candidate set is each process's own.  With shuffling requested and
    the same seed, the two runs return the same list if and only if both
    processes happened to iterate the candidate set in the same order:
    the seeded shuffle permutes positions, so a different order going in
    is a different order coming out.  For the sample report and seed 42,
    two processes that iterate the set in different orders return
    different lists. *)
Theorem C8_same_seed_two_processes :
  (forall (I : Interpreter) order order_NoDup order_elem (g1 g2 : rng I)
          (collectors : list (list CollectItem)) (random_seed : Z),
      fst (collect_tests I g1 collectors true random_seed None)
      = fst (collect_tests (with_set_order I order order_NoDup order_elem) g2
               collectors true random_seed None)
      <-> iter_set I (canonical_ids collectors) = order (canonical_ids collectors))
  /\ fst (collect_tests sample_interpreter 0%Z sample_report true 42 None)
     = [ "tests/test_a.py::test_g"; "tests/test_a.py::test_f";
         "tests/test_b.py::TestB::test_h"; "tests/test_b.py::test_j";
         "tests/test_b.py::test_i" ]
  /\ fst (collect_tests other_process 0%Z sample_report true 42 None)
     = [ "tests/test_b.py::TestB::test_h"; "tests/test_b.py::test_j";
         "tests/test_a.py::test_g"; "tests/test_a.py::test_f";
         "tests/test_b.py::test_i" ]
  /\ fst (collect_tests sample_interpreter 0%Z sample_report true 42 None)
     <> fst (collect_tests other_process 0%Z sample_report true 42 None).
Proof.
  split.
  - intros I order Hn He g1 g2 collectors random_seed.
    rewrite !collect_shuffled, shuffle_with_set_order.
    change (iter_set (with_set_order I order Hn He)) with order.
    change (seed (with_set_order I order Hn He)) with (seed I).
    split.
    + intros H. apply (shuffle_inj I _ _ (seed I random_seed)). exact H.
    + now intros ->.
  - split; [vm_compute; reflexivity|]. split; [vm_compute; reflexivity|].
    vm_compute. discriminate.
Qed.

(** C10.  A cap of zero is not applied: the result is the one obtained
    without a cap, a rearrangement of the set of canonical ids, so every
    canonical id is returned.  The list is cut only for a cap that is an
    integer other than zero, and for a positive cap it is cut to its
    first elements. *)
Theorem C10_zero_cap_ignored (I : Interpreter) (g : rng I)
    (collectors : list (list CollectItem)) (random : bool) (random_seed : Z) :
  collect_tests I g collectors random random_seed (Some 0%Z)
  = collect_tests I g collectors random random_seed None
  /\ fst (collect_tests I g collectors random random_seed (Some 0%Z))
     ≡ₚ iter_set I (canonical_ids collectors)
  /\ (forall id,
        id ∈ fst (collect_tests I g collectors random random_seed (Some 0%Z))
        <-> id ∈ canonical_ids collectors)
  /\ (forall max_tests,
        fst (collect_tests I g collectors random random_seed max_tests)
        <> fst (collect_tests I g collectors random random_seed None) ->
        exists n, max_tests = Some n /\ n <> 0%Z)
  /\ (forall n, (0 < n)%Z ->
        fst (collect_tests I g collectors random random_seed (Some n))
        = take (Z.to_nat n)
            (fst (collect_tests I g collectors random random_seed None))).
Proof.
  assert (P : fst (collect_tests I g collectors random random_seed None)
              ≡ₚ iter_set I (canonical_ids collectors)).
  { unfold collect_tests. destruct random.
    - pose proof (shuffle_Permutation I (iter_set I (canonical_ids collectors))
                    (seed I random_seed)) as H.
      destruct (shuffle I _ _); exact H.
    - reflexivity. }
  assert (E : collect_tests I g collectors random random_seed (Some 0%Z)
              = collect_tests I g collectors random random_seed None) by reflexivity.
  split; [exact E|]. rewrite E. split; [exact P|]. split; [|split].
  - intros id. rewrite P. apply iter_set_elem.
  - intros [n|] H; [|contradiction].
    exists n. split; [reflexivity|]. intros ->. now apply H.
  - intros n Hn. unfold collect_tests.
    destruct (if random then _ else _) as [tests g'].
    destruct (Z.eqb_spec n 0); [lia|]. simpl. now apply slice_to_pos.
Qed.


(** *** One test *)

Lemma trace_test_total (w : TestRun) (test : string) :
  exists r, trace_test w test = Ok r.
Proof.
  unfold trace_test, try_except.
  destruct (trace_test_body w test) as [r|e]; eauto.
Qed.

Lemma trace_test_raise (w : TestRun) (test : string) (e : exn) :
  trace_test_body w test = Raise e -> trace_test w test = Ok None.
Proof. unfold trace_test, try_except. now intros ->. Qed.

Lemma with_body_not_passed (w : TestRun) r :
  reported_outcome w <> Ok (JStr "passed") ->
  with_body w = Ok r -> r = inl tt.
Proof.
  unfold with_body, reported_outcome, bind. intros H.
  destruct (run_trace_test w); [|discriminate].
  destruct (load_report w) as [rep|]; [|discriminate].
  destruct (getitem rep "tests") as [ts|]; [|discriminate].
  destruct (getitem0 ts) as [tr|]; [|discriminate].
  destruct (getitem tr "outcome") as [o|]; [|discriminate].
  destruct (is_passed o) eqn:P; simpl; [|congruence].
  exfalso. apply H. destruct o; try discriminate P.
  apply String.eqb_eq in P. now subst.
Qed.

Lemma trace_test_not_passed (w : TestRun) (test : string) :
  reported_outcome w <> Ok (JStr "passed") -> trace_test w test = Ok None.
Proof.
  intros H. unfold trace_test, try_except, trace_test_body, with_tmpdir, bind.
  destruct (tmpdir_create w); [|reflexivity].
  destruct (with_body w) as [r|e] eqn:B.
  - apply (with_body_not_passed w r H) in B. subst r.
    destruct (tmpdir_cleanup w); reflexivity.
  - destruct (tmpdir_cleanup w); reflexivity.
Qed.

Lemma with_body_raise (w : TestRun) :
  subprocess_run w = Timeout
  \/ (exists rc, subprocess_run w = Exited rc /\ rc <> 0%Z)
  \/ (exists e, load_report w = Raise e)
  \/ (exists e, load_trace w = Raise e) ->
  forall r, with_body w = Ok r -> r = inl tt.
Proof.
  unfold with_body, run_trace_test, bind.
  intros [H|[(rc & H & Hrc)|[(e & H)|(e & H)]]] r; rewrite H.
  - discriminate.
  - destruct (Z.eqb_spec rc 0); [contradiction | discriminate].
  - destruct (subprocess_run w) as [|rc]; [discriminate|].
    destruct (rc =? 0)%Z; discriminate.
  - destruct (subprocess_run w) as [|rc]; [discriminate|].
    destruct (rc =? 0)%Z; [|discriminate].
    destruct (load_report w) as [rep|]; [|discriminate].
    destruct (getitem rep "tests") as [ts|]; [|discriminate].
    destruct (getitem0 ts) as [tr|]; [|discriminate].
    destruct (getitem tr "outcome") as [o|]; [|discriminate].
    destruct (is_passed o); simpl; [discriminate | congruence].
Qed.

Lemma trace_test_failure (w : TestRun) (test : string) :
  tmpdir_create w <> Ok tt
  \/ subprocess_run w = Timeout
  \/ (exists rc, subprocess_run w = Exited rc /\ rc <> 0%Z)
  \/ (exists e, load_report w = Raise e)
  \/ (exists e, load_trace w = Raise e)
  \/ tmpdir_cleanup w <> Ok tt ->
  trace_test w test = Ok None.
Proof.
  intros H. unfold trace_test, try_except, trace_test_body, with_tmpdir, bind.
  destruct (tmpdir_create w) as [[]|]; [|reflexivity].
  destruct (tmpdir_cleanup w) as [[]|] eqn:C;
    [|destruct (with_body w); reflexivity].
  destruct (with_body w) as [r|e] eqn:B; [|reflexivity].
  assert (r = inl tt) as ->; [|reflexivity].
  apply (with_body_raise w); [|exact B]. tauto.
Qed.

(** The good case: the result is a record. *)
Lemma trace_test_passed (w : TestRun) (test : string) rep ts tr trace id :
  tmpdir_create w = Ok tt -> subprocess_run w = Exited 0 ->
  load_report w = Ok rep -> getitem rep "tests" = Ok ts ->
  getitem0 ts = Ok tr -> getitem tr "outcome" = Ok (JStr "passed") ->
  load_trace w = Ok trace -> tmpdir_cleanup w = Ok tt ->
  get_test_func_id tr = Ok id ->
  trace_test w test
  = Ok (Some {| test_id := test; test_func_id := id; call_relations := trace |}).
Proof.
  intros H1 H2 H3 H4 H5 H6 H7 H8 H9.
  unfold trace_test, try_except, trace_test_body, with_tmpdir, with_body,
    run_trace_test, bind.
  rewrite H1, H2. simpl. rewrite H3, H4, H5, H6. simpl. rewrite H7, H8, H9.
  reflexivity.
Qed.

(** *** The batch *)

Lemma generate_test_traces_ok (world : string -> TestRun) (completed : list string) :
  generate_test_traces world completed = Ok (non_empty_results world completed).
Proof.
  induction completed as [|test rest IH]; simpl; [reflexivity|].
  unfold non_empty_results in *. rewrite IH. unfold bind.
  destruct (trace_test_total (world test) test) as [r ->].
  destruct r; reflexivity.
Qed.

Lemma non_empty_results_Permutation world (l1 l2 : list string) :
  l1 ≡ₚ l2 -> non_empty_results world l1 ≡ₚ non_empty_results world l2.
Proof.
  unfold non_empty_results. induction 1; simpl.
  - reflexivity.
  - now apply Permutation_app_head.
  - rewrite !app_assoc. apply Permutation_app_tail, Permutation_app_comm.
  - etrans; eauto.
Qed.

(** C7.  [trace_test] never raises; its result is [None] whenever the
    reported outcome is not "passed", whatever the trace artifact holds,
    and whenever the processing of the test raises (scratch directory,
    timeout, non-zero exit, unreadable report or trace); and whatever the
    order of completion, the batch does not raise and its corpus consists
    of exactly the non-empty results of the submitted tests. *)
Theorem C7_failures_contained (world : string -> TestRun)
    (tests completed : list string) :
  completed ≡ₚ tests ->
  (forall w test, exists r, trace_test w test = Ok r)
  /\ (forall w test,
        reported_outcome w <> Ok (JStr "passed") -> trace_test w test = Ok None)
  /\ (forall w test e,
        trace_test_body w test = Raise e -> trace_test w test = Ok None)
  /\ (forall w test,
        tmpdir_create w <> Ok tt
        \/ subprocess_run w = Timeout
        \/ (exists rc, subprocess_run w = Exited rc /\ rc <> 0%Z)
        \/ (exists e, load_report w = Raise e)
        \/ (exists e, load_trace w = Raise e)
        \/ tmpdir_cleanup w <> Ok tt ->
        trace_test w test = Ok None)
  /\ exists corpus,
       generate_test_traces world completed = Ok corpus
       /\ corpus = non_empty_results world completed
       /\ corpus ≡ₚ non_empty_results world tests.
Proof.
  intros HP.
  split; [apply trace_test_total|].
  split; [apply trace_test_not_passed|].
  split; [apply trace_test_raise|].
  split; [apply trace_test_failure|].
  exists (non_empty_results world completed).
  split; [apply generate_test_traces_ok|]. split; [reflexivity|].
  now apply non_empty_results_Permutation.
Qed.


Lemma C7_failures_contained_witness :
  [ "tests/test_a.py::test_skip"; "tests/test_a.py::test_ok";
    "tests/test_b.py::test_slow" ]
  ≡ₚ [ "tests/test_a.py::test_ok"; "tests/test_a.py::test_skip";
       "tests/test_b.py::test_slow" ]
  /\ generate_test_traces sample_world
       [ "tests/test_a.py::test_skip"; "tests/test_a.py::test_ok";
         "tests/test_b.py::test_slow" ]
     = Ok [ {| test_id := "tests/test_a.py::test_ok";
               test_func_id := "tests/test_a.py:10:test_ok";
               call_relations := sample_trace |} ].
Proof.
  split; [apply perm_swap|].
  destruct (C7_failures_contained sample_world
              [ "tests/test_a.py::test_ok"; "tests/test_a.py::test_skip";
                "tests/test_b.py::test_slow" ]
              [ "tests/test_a.py::test_skip"; "tests/test_a.py::test_ok";
                "tests/test_b.py::test_slow" ]
              (perm_swap _ _ _))
    as (_ & _ & _ & _ & corpus & Hrun & Hcorpus & _).
  rewrite Hrun, Hcorpus. reflexivity.
Defined.

(** *** Node ids *)

Lemma plain_no_colon s : plain s = true -> no_colon s = true.
Proof.
  unfold plain, no_colon, plain_char. induction s as [|c s IH]; simpl; [auto|].
  intros H. apply andb_prop in H as [H1 H2]. apply andb_prop in H1 as [H1 _].
  now rewrite H1, IH.
Qed.

Lemma plain_no_bracket s : plain s = true -> no_bracket s = true.
Proof.
  unfold plain, no_bracket, plain_char. induction s as [|c s IH]; simpl; [auto|].
  intros H. apply andb_prop in H as [H1 H2]. apply andb_prop in H1 as [_ H1].
  now rewrite H1, IH.
Qed.

Lemma all_chars_app p a b :
  all_chars p (String.append a b) = all_chars p a && all_chars p b.
Proof. induction a as [|c a IH]; simpl; [reflexivity | now rewrite IH, andb_assoc]. Qed.

Lemma strip_skip (p : string) : forall k r,
  strip_from (String.length p + k) (String.append p r) = strip_from k r.
Proof. induction p as [|c p IH]; intros k r; simpl; [reflexivity | apply IH]. Qed.

Lemma close_index_params (p r : string) :
  all_chars param_char p = true ->
  close_index (String.append p (String "]" r)) = Some (String.length p).
Proof.
  unfold param_char. induction p as [|c p IH]; simpl; intros H; [reflexivity|].
  apply andb_prop in H as [H1 H2]. apply andb_prop in H1 as [Ha Hb].
  apply negb_true_iff in Ha, Hb. rewrite Ha, Hb, (IH H2). reflexivity.
Qed.

Lemma strip_no_bracket (a b : string) :
  no_bracket a = true ->
  strip_from 0 (String.append a b) = String.append a (strip_from 0 b).
Proof.
  unfold no_bracket. induction a as [|c a IH]; simpl; intros H; [reflexivity|].
  apply andb_prop in H as [H1 H2]. apply negb_true_iff in H1.
  now rewrite H1, (IH H2).
Qed.

Lemma strip_bracketed (params : option string) :
  simple_params params = true -> strip_from 0 (bracketed params) = EmptyString.
Proof.
  destruct params as [p|]; simpl; intros H; [|reflexivity].
  rewrite (close_index_params p EmptyString H).
  replace (S (String.length p)) with (String.length (String.append p "]") + 0)%nat.
  - replace (String.append p "]")
      with (String.append (String.append p "]") EmptyString) at 2.
    + apply strip_skip.
    + clear. induction (String.append p "]") as [|c s IH]; simpl; [auto | now rewrite IH].
  - clear. induction p as [|c p IH]; simpl; [reflexivity|]. simpl in IH. lia.
Qed.

Lemma append_empty_r (s : string) : String.append s EmptyString = s.
Proof. induction s as [|c s IH]; simpl; [auto | now rewrite IH]. Qed.

Lemma split_from_cons (sep : string) (c : ascii) (s : string) :
  split_from sep 0 (String c s)
  = if String.prefix sep (String c s)
    then EmptyString :: split_from sep (String.length sep - 1) s
    else cons_head c (split_from sep 0 s).
Proof. reflexivity. Qed.

Lemma prefix_other (c : ascii) (s : string) :
  Ascii.eqb c ":" = false -> String.prefix "::" (String c s) = false.
Proof.
  intros H. apply Ascii.eqb_neq in H. cbn [String.prefix].
  destruct (ascii_dec ":" c) as [E|_]; [now subst | reflexivity].
Qed.

Lemma split_no_colon (a : string) :
  no_colon a = true -> split_from "::" 0 a = [a].
Proof.
  unfold no_colon. induction a as [|c a IH]; intros H; [reflexivity|].
  cbn [all_chars] in H.
  apply andb_prop in H as [H1 H2]. apply negb_true_iff in H1.
  now rewrite split_from_cons, (prefix_other _ _ H1), (IH H2).
Qed.

Lemma split_cut (a b : string) :
  no_colon a = true ->
  split_from "::" 0 (String.append a (String ":" (String ":" b)))
  = a :: split_from "::" 0 b.
Proof.
  unfold no_colon. induction a as [|c a IH]; intros H.
  - cbn [String.append]. rewrite split_from_cons.
    replace (String.prefix "::" (String ":" (String ":" b))) with true
      by (destruct b; reflexivity).
    reflexivity.
  - cbn [all_chars] in H.
    apply andb_prop in H as [H1 H2]. apply negb_true_iff in H1.
    cbn [String.append].
    now rewrite split_from_cons, (prefix_other _ _ H1), (IH H2).
Qed.

Lemma split_join (x : string) (xs : list string) :
  no_colon x = true -> forallb no_colon xs = true ->
  split (join "::" (x :: xs)) "::" = x :: xs.
Proof.
  unfold split. revert x. induction xs as [|y xs IH]; intros x Hx Hxs.
  - simpl. now apply split_no_colon.
  - simpl in Hxs. apply andb_prop in Hxs as [Hy Hxs].
    change (join "::" (x :: y :: xs))
      with (String.append x (String ":" (String ":" (join "::" (y :: xs))))).
    rewrite (split_cut _ _ Hx). f_equal. now apply IH.
Qed.

Lemma join_no_bracket (x : string) (xs : list string) :
  no_bracket x = true -> forallb no_bracket xs = true ->
  no_bracket (join "::" (x :: xs)) = true.
Proof.
  revert x. induction xs as [|y xs IH]; intros x Hx Hxs; [exact Hx|].
  simpl in Hxs. apply andb_prop in Hxs as [Hy Hxs].
  change (join "::" (x :: y :: xs))
    with (String.append x (String ":" (String ":" (join "::" (y :: xs))))).
  unfold no_bracket in *. rewrite all_chars_app, Hx. simpl. now apply IH.
Qed.

Lemma forallb_snoc {A} (p : A -> bool) (l : list A) (x : A) :
  forallb p l = true -> p x = true -> forallb p (l ++ [x]) = true.
Proof. intros Hl Hx. rewrite forallb_app, Hl. simpl. now rewrite Hx. Qed.

Lemma forallb_weaken {A} (p q : A -> bool) (l : list A) :
  (forall x, p x = true -> q x = true) -> forallb p l = true -> forallb q l = true.
Proof.
  intros Hpq. induction l as [|x l IH]; simpl; [auto|].
  intros H. apply andb_prop in H as [H1 H2]. now rewrite (Hpq _ H1), IH.
Qed.

Lemma re_sub_nodeid filepath classes funcname params :
  plain filepath = true -> forallb plain classes = true ->
  plain funcname = true -> simple_params params = true ->
  re_sub_brackets (nodeid_of filepath classes funcname params)
  = join "::" (filepath :: classes ++ [funcname]).
Proof.
  intros Hf Hc Hn Hp. unfold re_sub_brackets, nodeid_of.
  rewrite strip_no_bracket, (strip_bracketed _ Hp), append_empty_r; [reflexivity|].
  apply join_no_bracket; [now apply plain_no_bracket|].
  apply forallb_snoc; [|now apply plain_no_bracket].
  eapply forallb_weaken; [|exact Hc]. apply plain_no_bracket.
Qed.

(** Where the pattern does strip the suffix.  For a test result whose
    node id is [filepath::...::funcname], optionally followed by a
    bracketed suffix, where no component holds a colon or a left bracket
    and the text between the brackets holds no right bracket and no line
    feed, and whose line number is the integer [L], [get_test_func_id]
    returns [filepath:(L+1):funcname]. *)
Lemma func_id_plain (test_result : json) (filepath : string)
    (classes : list string) (funcname : string) (params : option string)
    (L : Z) :
  plain filepath = true -> forallb plain classes = true ->
  plain funcname = true -> simple_params params = true ->
  getitem test_result "nodeid"
  = Ok (JStr (nodeid_of filepath classes funcname params)) ->
  getitem test_result "lineno" = Ok (JInt L) ->
  get_test_func_id test_result
  = Ok (String.append filepath (String.append ":"
         (String.append (str_of_int (L + 1)) (String.append ":" funcname)))).
Proof.
  intros Hf Hc Hn Hp Hid Hl. unfold get_test_func_id, bind.
  rewrite Hid, Hl. simpl add_one. cbv iota beta.
  rewrite (re_sub_nodeid _ _ _ _ Hf Hc Hn Hp).
  rewrite split_join.
  - unfold first, final. now rewrite app_comm_cons, last_snoc.
  - now apply plain_no_colon.
  - apply forallb_snoc; [|now apply plain_no_colon].
    eapply forallb_weaken; [|exact Hc]. apply plain_no_colon.
Qed.

Lemma func_id_plain_example :
  get_test_func_id
    (JObj [ ("nodeid", JStr (nodeid_of "test_file" [] "test_function" None));
            ("lineno", JInt 9) ])
  = Ok "test_file:10:test_function".
Proof.
  exact (func_id_plain
           (JObj [ ("nodeid", JStr (nodeid_of "test_file" [] "test_function" None));
                   ("lineno", JInt 9) ])
           "test_file" [] "test_function" None 9
           eq_refl eq_refl eq_refl eq_refl eq_refl eq_refl).
Defined.

(** C9.  A parametrization suffix whose text itself holds brackets is
    not stripped: for the node id [test_file.py::test_f[x[0]]], which is
    [filepath::funcname] followed by the suffix [[x[0]]], the pattern
    deletes the shortest span [[x[0]], the last right bracket stays, and
    the result is [test_file.py:10:test_f]] where the function name is
    [test_f].  The suffix of the repository's own test,
    [[param1-param2]], is stripped. *)
Theorem C9_nested_suffix_not_stripped :
  nodeid_of "test_file.py" [] "test_f" (Some "x[0]") = "test_file.py::test_f[x[0]]"
  /\ get_test_func_id
       (JObj [ ("nodeid", JStr "test_file.py::test_f[x[0]]"); ("lineno", JInt 9) ])
     = Ok "test_file.py:10:test_f]"
  /\ get_test_func_id
       (JObj [ ("nodeid", JStr "test_file.py::test_f[x[0]]"); ("lineno", JInt 9) ])
     <> Ok "test_file.py:10:test_f"
  /\ get_test_func_id
       (JObj [ ("nodeid", JStr "test_file.py::test_function[param1-param2]");
               ("lineno", JInt 19) ])
     = Ok "test_file.py:20:test_function".
Proof.
  split; [reflexivity|]. split; [reflexivity|]. split; [discriminate | reflexivity].
Qed.

(** *** The cases of the repository's tests *)

Example test_get_test_func_id :
  map get_test_func_id
    [ JObj [ ("nodeid", JStr "test_file.py::test_function"); ("lineno", JInt 9) ];
      JObj [ ("nodeid", JStr "test_file.py::test_function[param1-param2]");
             ("lineno", JInt 19) ];
      JObj [ ("nodeid", JStr "test_file.py::TestClass::test_method");
             ("lineno", JInt 29) ] ]
  = [ Ok "test_file.py:10:test_function";
      Ok "test_file.py:20:test_function";
      Ok "test_file.py:30:test_method" ].
Proof. reflexivity. Qed.

Example canonicalization :
  map re_sub_brackets [ "mod::test_f[1-2]"; "mod::test_f[3-4]" ]
  = [ "mod::test_f"; "mod::test_f" ].
Proof. reflexivity. Qed.

Example truncation :
  List.length (fst (collect_tests sample_interpreter 0%Z sample_report
                      true 42 (Some 3%Z))) = 3
  /\ List.length (fst (collect_tests sample_interpreter 0%Z sample_report
                         true 42 (Some 0%Z))) = 5.
Proof. split; vm_compute; reflexivity. Qed.

End TraceFacts.

(** ** Further properties of the tracer *)

Module HooksMoreFacts.
Import Py PyFacts Hooks HooksFacts HooksMore.

#[local] Arguments String.append !s1 s2 : simpl nomatch.

(** *** Streams *)

Lemma feed_app cwd (ev1 ev2 : list (Frame * string)) : forall self,
  feed cwd self (ev1 ++ ev2)
  = match feed cwd self ev1 with
    | (self', Returns) => feed cwd self' ev2
    | (self', Raises e) => (self', Raises e)
    end.
Proof.
  induction ev1 as [|[f ev] ev1 IH]; intros self; simpl; [reflexivity|].
  destruct (trace_calls cwd self f ev) as [self' [|e]]; [apply IH | reflexivity].
Qed.

Lemma trace_calls_records_prefix cwd self frame event :
  call_records self `prefix_of` call_records (fst (trace_calls cwd self frame event)).
Proof.
  destruct (record_gate cwd self frame event) as [E|(rel & E & _)];
    cbv zeta in E; rewrite E; [reflexivity | now apply prefix_app_r].
Qed.

Lemma feed_records_prefix cwd events : forall self,
  call_records self `prefix_of` call_records (fst (feed cwd self events)).
Proof.
  induction events as [|[f ev] rest IH]; intros self; simpl; [reflexivity|].
  pose proof (trace_calls_records_prefix cwd self f ev) as P.
  destruct (trace_calls cwd self f ev) as [self' [|e]]; simpl in *; [|exact P].
  etrans; [exact P | apply IH].
Qed.

(** X2.  The export only grows at its end: what a stream has exported stays,
    in place, when the stream goes on. *)
Theorem export_append_only cwd self (ev1 ev2 : list (Frame * string)) :
  export (fst (feed cwd self ev1)) `prefix_of` export (fst (feed cwd self (ev1 ++ ev2))).
Proof.
  unfold export. rewrite feed_app.
  destruct (feed cwd self ev1) as [self' [|e]]; simpl; [|reflexivity].
  apply feed_records_prefix.
Qed.

(** *** No null field in the export *)

Lemma trace_calls_complete cwd self frame event :
  Forall (fun r => complete r = true) (call_records self) ->
  Forall (fun r => complete r = true)
         (call_records (fst (trace_calls cwd self frame event))).
Proof.
  intros H.
  destruct (record_gate cwd self frame event) as [E|(rel & E & _ & _ & _ & C & _)];
    cbv zeta in E; rewrite E; [exact H|].
  apply Forall_app. split; [exact H|]. constructor; [exact C | constructor].
Qed.

Lemma feed_complete cwd events : forall self,
  Forall (fun r => complete r = true) (call_records self) ->
  Forall (fun r => complete r = true) (call_records (fst (feed cwd self events))).
Proof.
  induction events as [|[f ev] rest IH]; intros self H; simpl; [exact H|].
  pose proof (trace_calls_complete cwd self f ev H) as P.
  destruct (trace_calls cwd self f ev) as [self' [|e]]; simpl in *; [|exact P].
  now apply IH.
Qed.

(** X1.  No exported edge has a null field: the edge of the entry point,
    whose caller is null, and edges with a missing line are never
    exported. *)
Theorem export_has_no_null cwd base (events : list (Frame * string)) (r : CallRecord) :
  r ∈ export (fst (feed cwd (__init__ cwd base) events)) ->
  exists cf cl cn ef el en,
    r = {| caller := {| filepath := Some cf; lineno := Some cl; func_name := Some cn |};
           callee := {| filepath := Some ef; lineno := Some el; func_name := Some en |} |}.
Proof.
  intros H.
  assert (F : Forall (fun r => complete r = true)
                (call_records (fst (feed cwd (__init__ cwd base) events))))
    by (apply feed_complete; constructor).
  rewrite Forall_forall in F. specialize (F r H).
  destruct r as [[[cf|] [cl|] [cn|]] [[ef|] [el|] [en|]]]; try discriminate F.
  now exists cf, cl, cn, ef, el, en.
Qed.


(** *** The set of keys *)

Lemma keyed_feed cwd events : forall self,
  keyed self -> keyed (fst (feed cwd self events)).
Proof.
  induction events as [|[f ev] rest IH]; intros self K; simpl; [exact K|].
  destruct (trace_calls cwd self f ev) as [self' [|e]] eqn:E.
  - apply IH. now destruct (trace_calls_records _ _ _ _ _ K E).
  - apply trace_calls_raises in E as [-> _]. exact K.
Qed.

(** X3.  After any stream the set of keys is the set of the keys of the
    exported records, one key for each record. *)
Theorem key_set_mirrors_records cwd base (events : list (Frame * string)) :
  let tracer := fst (feed cwd (__init__ cwd base) events) in
  call_records_set tracer = list_to_set (map dumps_record (call_records tracer))
  /\ size (call_records_set tracer) = List.length (call_records tracer).
Proof.
  cbv zeta.
  pose proof (keyed_feed cwd events _ (keyed_init cwd base)) as K.
  assert (N : NoDup (call_records (fst (feed cwd (__init__ cwd base) events)))).
  { rewrite (feed_records _ _ _ (keyed_init cwd base)).
    apply first_seen_into_NoDup. constructor. }
  set (tracer := fst (feed cwd (__init__ cwd base) events)) in *.
  assert (E : call_records_set tracer
              = list_to_set (map dumps_record (call_records tracer))).
  { apply set_eq. intros k. rewrite (K k), elem_of_list_to_set, list_elem_of_fmap.
    split; intros (r & H1 & H2); exists r; auto. }
  split; [exact E|]. rewrite E, size_list_to_set, length_map; [reflexivity|].
  apply NoDup_fmap_2; [|exact N]. intros r1 r2. apply dumps_record_inj.
Qed.

(** *** Events that are neither calls nor returns *)

(** X5.  Events other than "call" and "return" (the profiler also reports
    calls into C functions) do not count: a stream and the stream without
    them leave the same tracer. *)
Theorem other_events_ignored cwd (events : list (Frame * string)) : forall self,
  feed cwd self (List.filter acted_on events) = feed cwd self events.
Proof.
  induction events as [|[f ev] rest IH]; intros self; [reflexivity|].
  cbn [List.filter]. destruct (acted_on (f, ev)) eqn:A.
  - cbn [feed]. destruct (trace_calls cwd self f ev) as [self' [|e]]; [apply IH | reflexivity].
  - cbn [feed]. unfold acted_on in A. simpl in A.
    apply orb_false_elim in A as [A1 A2].
    apply String.eqb_neq in A1, A2.
    rewrite (trace_calls_other _ _ _ _ A1 A2). apply IH.
Qed.

(** *** The entries of the stack *)

(** X6.  Every entry of the stack carries the name and the line of an
    eligible call event of the stream, so its name always passes
    [_is_function]: in the test made on a return, only the test of the
    path and the comparison of the names can fail. *)
Theorem stack_entries_valid cwd base (events : list (Frame * string)) en :
  en ∈ call_stack (fst (feed cwd (__init__ cwd base) events)) ->
  _is_function (snd (fst en)) = true
  /\ exists frame,
       (frame, "call") ∈ events
       /\ eligible cwd (__init__ cwd base) frame = true
       /\ snd (fst en) = co_name frame /\ snd en = f_lineno frame
       /\ relative_to (co_filename frame) (base_dir (__init__ cwd base))
          = Ok (fst (fst en)).
Proof.
  intros H.
  assert (S0 : sourced cwd (__init__ cwd base) [] (__init__ cwd base)).
  { split; [reflexivity|]. split; constructor. }
  pose proof (sourced_feed cwd _ events [] _ S0) as (_ & St & _).
  simpl in St. rewrite Forall_forall in St.
  destruct (St en H) as (frame & rel & Hin & El & Rel & E).
  destruct en as [[f g] l]. unfold entry_endpoint, callee_of in E. simpl in E.
  injection E as -> -> ->. simpl.
  split.
  - unfold eligible in El. now apply andb_prop in El as [_ El].
  - exists frame. auto.
Qed.


(** *** File names in absolute normal form *)

Lemma prefix_nil (s : string) : String.prefix EmptyString s = true.
Proof. now destruct s. Qed.

Lemma prefix_inv (p s : string) :
  String.prefix p s = true -> exists r, s = String.append p r.
Proof.
  revert s. induction p as [|c p IH]; intros s H.
  - now exists s.
  - destruct s as [|d s]; [discriminate H|]. cbn [String.prefix] in H.
    destruct (ascii_dec c d) as [->|]; [|discriminate H].
    destruct (IH _ H) as [r ->]. now exists r.
Qed.

Lemma split_from_slash (c : ascii) (s : string) :
  split_from "/" 0 (String c s)
  = if Ascii.eqb c "/" then EmptyString :: split_from "/" 0 s
    else cons_head c (split_from "/" 0 s).
Proof.
  rewrite TraceFacts.split_from_cons. cbn [String.prefix].
  destruct (ascii_dec "/" c) as [<-|N].
  - now rewrite prefix_nil.
  - destruct (Ascii.eqb c "/") eqn:Q; [|reflexivity].
    apply Ascii.eqb_eq in Q. congruence.
Qed.

Lemma split_from_nonempty sep k s : split_from sep k s <> [].
Proof.
  revert k. induction s as [|c s IH]; intros k; cbn [split_from]; [easy|].
  destruct k; [|apply IH].
  destruct (String.prefix sep (String c s)); [easy|].
  specialize (IH 0). destruct (split_from sep 0 s); [contradiction | easy].
Qed.

(** Cutting at a single separator distributes over the join. *)
Lemma split_slash_app (a b : string) :
  split_from "/" 0 (String.append a (String "/" b))
  = split_from "/" 0 a ++ split_from "/" 0 b.
Proof.
  induction a as [|c a IH].
  - cbn [String.append]. now rewrite split_from_slash.
  - cbn [String.append]. rewrite !split_from_slash, IH.
    destruct (Ascii.eqb c "/"); [reflexivity|].
    pose proof (split_from_nonempty "/" 0 a) as N.
    destruct (split_from "/" 0 a); [contradiction | reflexivity].
Qed.

Lemma path_tail_app (a b : string) :
  path_tail (String.append a (String "/" b)) = path_tail a ++ path_tail b.
Proof. unfold path_tail, split. now rewrite split_slash_app, List.filter_app. Qed.

Lemma is_prefix_of_app (l m : list string) : is_prefix_of l (l ++ m) = true.
Proof. induction l as [|x l IH]; simpl; [reflexivity | now rewrite String.eqb_refl]. Qed.

Lemma skipn_app_length {A} (l m : list A) : skipn (List.length l) (l ++ m) = m.
Proof. induction l; simpl; auto. Qed.

Lemma initial_slashes_app (a b : string) :
  has_name a = true ->
  initial_slashes (String.append a (String "/" b)) = initial_slashes a.
Proof.
  unfold has_name, initial_slashes, startswith. intros H.
  destruct a as [|c1 a]; [discriminate H|]. cbn [String.append all_chars] in *.
  destruct (Ascii.eqb_spec c1 "/") as [->|N1].
  2:{ cbn [String.prefix]. destruct (ascii_dec "/" c1); [congruence | reflexivity]. }
  destruct a as [|c2 a]; [discriminate H|]. cbn [String.append all_chars] in *.
  destruct (Ascii.eqb_spec c2 "/") as [->|N2].
  2:{ cbn [String.prefix]. destruct (ascii_dec "/" "/"); [|congruence].
      rewrite !prefix_nil. destruct (ascii_dec "/" c2); [congruence | reflexivity]. }
  destruct a as [|c3 a]; [discriminate H|]. cbn [String.append all_chars] in *.
  cbn [String.prefix]. destruct (ascii_dec "/" "/"); [|congruence].
  rewrite !prefix_nil.
  destruct (ascii_dec "/" c3); reflexivity.
Qed.

Lemma relative_to_below (base rest : string) :
  has_name base = true ->
  relative_to (String.append base (String "/" rest)) base
  = Ok (relative_str (path_tail rest)).
Proof.
  intros H. unfold relative_to, path_root.
  rewrite (initial_slashes_app _ _ H), String.eqb_refl, path_tail_app,
    is_prefix_of_app, skipn_app_length. reflexivity.
Qed.

(** X4.  The hook does not raise on an event whose file name is already in
    the form that [os.path.abspath] returns (absolute and normalised),
    provided the base directory is not made of separators only: either
    the event is filtered out or its path relative to the base directory
    exists. *)
Theorem hook_safe_on_absolute_names cwd self frame event :
  has_name (base_dir self) = true ->
  abspath cwd (co_filename frame) = co_filename frame ->
  snd (trace_calls cwd self frame event) = Returns.
Proof.
  intros Hb Ha.
  destruct (trace_calls cwd self frame event) as [self' [|e]] eqn:E; [reflexivity|].
  exfalso. apply trace_calls_raises in E as (_ & _ & El & R).
  unfold eligible, _in_base_dir in El. rewrite Ha in El.
  apply andb_prop in El as [El _]. apply andb_prop in El as [El _].
  unfold startswith in El. apply prefix_inv in El as [rest El].
  rewrite PyFacts.append_assoc in El. cbn [String.append] in El.
  rewrite El, (relative_to_below _ _ Hb) in R. discriminate R.
Qed.

Lemma hook_safe_on_absolute_names_witness :
  has_name (base_dir demo_tracer) = true
  /\ abspath "/proj" (co_filename demo_inner) = co_filename demo_inner
  /\ snd (trace_calls "/proj" demo_tracer demo_inner "call") = Returns.
Proof.
  split; [reflexivity|]. split; [reflexivity|].
  exact (hook_safe_on_absolute_names "/proj" demo_tracer demo_inner "call"
           eq_refl eq_refl).
Defined.


(** *** The trace artifact *)

Lemma uint_not_comma (d : Decimal.uint) :
  all_chars not_comma (NilEmpty.string_of_uint d) = true.
Proof. induction d; simpl; auto. Qed.

Lemma json_opt_int_not_comma (o : option Z) :
  all_chars not_comma (json_opt_int o) = true.
Proof.
  destruct o as [n|]; [|reflexivity].
  unfold json_opt_int, str_of_int.
  destruct (Z.to_int n); simpl; apply uint_not_comma.
Qed.

Lemma comma_delimited (a b x y : string) :
  all_chars not_comma a = true -> all_chars not_comma b = true ->
  a +:+ String "," x = b +:+ String "," y -> a = b /\ x = y.
Proof.
  revert b. induction a as [|c a IH]; intros [|d b]; simpl; intros Ha Hb H.
  - injection H; auto.
  - injection H as <- _. discriminate Hb.
  - injection H as -> _. discriminate Ha.
  - apply andb_prop in Ha as [_ Ha]. apply andb_prop in Hb as [_ Hb].
    injection H as -> H. destruct (IH _ Ha Hb H) as [-> ->]. auto.
Qed.

Lemma indent_endpoint_eq (e : Endpoint) (x : string) :
  indent_endpoint e +:+ x
  = ("{" +:+ item 3 "filepath") +:+ json_opt_str (filepath e)
    +:+ ("," +:+ item 3 "lineno") +:+ json_opt_int (lineno e)
    +:+ String "," (item 3 "func_name" +:+ json_opt_str (func_name e)
    +:+ (nl 2 +:+ "}") +:+ x).
Proof. unfold indent_endpoint. rewrite !append_assoc. reflexivity. Qed.

Lemma indent_endpoint_prefix (e1 e2 : Endpoint) (x y : string) :
  indent_endpoint e1 +:+ x = indent_endpoint e2 +:+ y -> e1 = e2 /\ x = y.
Proof.
  rewrite !indent_endpoint_eq. intros H.
  apply append_cancel in H.
  apply json_opt_str_prefix in H as [Hf H].
  apply append_cancel in H.
  apply comma_delimited in H as [Hl H]; try apply json_opt_int_not_comma.
  apply json_opt_int_inj in Hl.
  apply append_cancel in H.
  apply json_opt_str_prefix in H as [Hn H].
  apply append_cancel in H.
  destruct e1, e2; simpl in *; subst; auto.
Qed.

Lemma indent_record_eq (r : CallRecord) (x : string) :
  indent_record r +:+ x
  = ("{" +:+ item 2 "caller") +:+ indent_endpoint (caller r)
    +:+ ("," +:+ item 2 "callee") +:+ indent_endpoint (callee r)
    +:+ (nl 1 +:+ "}") +:+ x.
Proof. unfold indent_record. rewrite !append_assoc. reflexivity. Qed.

Lemma indent_record_prefix (r1 r2 : CallRecord) (x y : string) :
  indent_record r1 +:+ x = indent_record r2 +:+ y -> r1 = r2 /\ x = y.
Proof.
  rewrite !indent_record_eq. intros H.
  apply append_cancel in H.
  apply indent_endpoint_prefix in H as [Ha H].
  apply append_cancel in H.
  apply indent_endpoint_prefix in H as [Hb H].
  apply append_cancel in H.
  destruct r1, r2; simpl in *; subst; auto.
Qed.

Lemma indent_items_inj (rs : list CallRecord) : forall r r' rs',
  indent_items r rs = indent_items r' rs' -> r :: rs = r' :: rs'.
Proof.
  induction rs as [|r2 rs IH]; intros r r' [|r2' rs'] H; cbn [indent_items] in H;
    apply indent_record_prefix in H as [-> H].
  - reflexivity.
  - discriminate H.
  - discriminate H.
  - f_equal. apply IH. now apply append_cancel, append_cancel in H.
Qed.

(** X8.  The text written by [save_to_file] determines the list of records:
    two tracers that write the same artifact hold the same records, field
    by field and in the same order. *)
Theorem save_to_file_inj (a b : CallTracer) :
  save_to_file a = save_to_file b -> call_records a = call_records b.
Proof.
  unfold save_to_file.
  destruct (call_records a) as [|r rs], (call_records b) as [|r' rs']; intros H.
  - reflexivity.
  - discriminate H.
  - discriminate H.
  - apply append_cancel, append_cancel in H. now apply indent_items_inj.
Qed.


Lemma export_has_no_null_witness :
  export (fst (feed "/proj" demo_tracer
                 [ (demo_outer, "call"); (demo_inner, "call") ]))
  = [ {| caller := {| filepath := Some "a.py"; lineno := Some 3%Z;
                      func_name := Some "outer" |};
         callee := {| filepath := Some "pkg/b.py"; lineno := Some 9%Z;
                      func_name := Some "inner" |} |} ]
  /\ exists cf cl cn ef el en,
       edge_of (pushed demo_tracer "a.py" demo_outer) "pkg/b.py" demo_inner
       = {| caller := {| filepath := Some cf; lineno := Some cl; func_name := Some cn |};
            callee := {| filepath := Some ef; lineno := Some el; func_name := Some en |} |}.
Proof.
  split; [reflexivity|].
  apply (export_has_no_null "/proj" None
           [ (demo_outer, "call"); (demo_inner, "call") ]).
  apply list_elem_of_In. left. reflexivity.
Defined.

Lemma stack_entries_valid_witness :
  call_stack (fst (feed "/proj" demo_tracer
                     [ (demo_outer, "call"); (demo_inner, "call") ]))
  = [ ("a.py", "outer", Some 3%Z); ("pkg/b.py", "inner", Some 9%Z) ]
  /\ _is_function "inner" = true.
Proof.
  split; [reflexivity|].
  refine (proj1 (stack_entries_valid "/proj" None
                   [ (demo_outer, "call"); (demo_inner, "call") ]
                   ("pkg/b.py", "inner", Some 9%Z) _)).
  apply list_elem_of_In. right. left. reflexivity.
Defined.

Lemma save_to_file_inj_witness :
  save_to_file (fst (feed "/proj" demo_tracer
                       [ (demo_outer, "call"); (demo_inner, "call") ]))
  = save_to_file (fst (feed "/proj" demo_tracer
                         [ (demo_outer, "call"); (demo_inner, "call");
                           (demo_inner, "return") ]))
  /\ call_records (fst (feed "/proj" demo_tracer
                          [ (demo_outer, "call"); (demo_inner, "call") ]))
     = call_records (fst (feed "/proj" demo_tracer
                            [ (demo_outer, "call"); (demo_inner, "call");
                              (demo_inner, "return") ])).
Proof.
  split; [reflexivity|].
  exact (save_to_file_inj _ _ eq_refl).
Defined.

(** *** A call and its return *)

Lemma in_base_dir_base cwd a b file :
  base_dir a = base_dir b -> _in_base_dir cwd a file = _in_base_dir cwd b file.
Proof. unfold _in_base_dir. now intros ->. Qed.

(** X7.  An eligible call followed by the return of the same frame leaves
    the stack as it was, provided the path stored for the frame passes
    [_in_base_dir] (as it does when the working directory is the base
    directory): the entry pushed by the call is the one popped. *)
Theorem call_then_return_restores cwd self frame rel :
  eligible cwd self frame = true ->
  relative_to (co_filename frame) (base_dir self) = Ok rel ->
  _in_base_dir cwd self rel = true ->
  call_stack (fst (feed cwd self [ (frame, "call"); (frame, "return") ]))
  = call_stack self
  /\ snd (feed cwd self [ (frame, "call"); (frame, "return") ]) = Returns.
Proof.
  intros El Rel Hin. cbn [feed].
  assert (Hname : _is_function (co_name frame) = true).
  { unfold eligible in El. now apply andb_prop in El as [_ El]. }
  assert (Hpop : forall t, base_dir t = base_dir self ->
            call_stack t = call_stack self ++ [entry_of rel frame] ->
            trace_calls cwd t frame "return" = (set_stack t (call_stack self), Returns)).
  { intros t Hb Hs. rewrite trace_calls_return, Hs, last_snoc. unfold entry_of.
    rewrite (in_base_dir_base cwd t self rel Hb), Hin, Hname, String.eqb_refl.
    cbn [andb]. now rewrite removelast_last. }
  rewrite trace_calls_call, El, Rel.
  destruct (bool_decide _); [|destruct (complete _)];
    rewrite Hpop by reflexivity; split; reflexivity.
Qed.

Lemma call_then_return_restores_witness :
  eligible "/proj" demo_tracer demo_inner = true
  /\ relative_to (co_filename demo_inner) (base_dir demo_tracer) = Ok "pkg/b.py"
  /\ _in_base_dir "/proj" demo_tracer "pkg/b.py" = true
  /\ call_stack (fst (feed "/proj" demo_tracer
                        [ (demo_inner, "call"); (demo_inner, "return") ])) = [].
Proof.
  split; [reflexivity|]. split; [reflexivity|]. split; [reflexivity|].
  exact (proj1 (call_then_return_restores "/proj" demo_tracer demo_inner
                  "pkg/b.py" eq_refl eq_refl eq_refl)).
Defined.

End HooksMoreFacts.

(** ** Further properties of discovery and orchestration *)

Module TraceMoreFacts.
Import Py PyFacts Trace TraceFacts TraceMore.

#[local] Arguments String.append !s1 s2 : simpl nomatch.

(** *** Discovery: what is returned *)

Lemma collect_uncapped_Permutation (I : Interpreter) g collectors random seed :
  fst (collect_tests I g collectors random seed None)
  ≡ₚ iter_set I (canonical_ids collectors).
Proof.
  unfold collect_tests. destruct random; [|reflexivity].
  pose proof (shuffle_Permutation I (iter_set I (canonical_ids collectors))
                (Trace.seed I seed)) as H.
  destruct (shuffle I _ _); exact H.
Qed.

Lemma collect_capped (I : Interpreter) g collectors random seed max_tests :
  fst (collect_tests I g collectors random seed max_tests)
  = match max_tests with
    | Some n => if (n =? 0)%Z
                then fst (collect_tests I g collectors random seed None)
                else slice_to n (fst (collect_tests I g collectors random seed None))
    | None => fst (collect_tests I g collectors random seed None)
    end.
Proof.
  unfold collect_tests. destruct (if random then _ else _) as [tests g'].
  destruct max_tests as [n|]; [|reflexivity]. destruct (n =? 0)%Z; reflexivity.
Qed.

Lemma slice_to_prefix {A} (n : Z) (l : list A) : slice_to n l `prefix_of` l.
Proof. unfold slice_to. destruct (0 <=? n)%Z; apply prefix_take. Qed.

(** X9.  Whatever the flags, the list returned by [collect_tests] is an
    initial part of the list returned without a cap, holds no identifier
    twice, and holds only canonical identifiers of the report. *)
Theorem collect_tests_sound (I : Interpreter) (g : rng I)
    (collectors : list (list CollectItem)) (random : bool) (seed : Z)
    (max_tests : option Z) :
  fst (collect_tests I g collectors random seed max_tests)
    `prefix_of` fst (collect_tests I g collectors random seed None)
  /\ NoDup (fst (collect_tests I g collectors random seed max_tests))
  /\ (forall id, id ∈ fst (collect_tests I g collectors random seed max_tests) ->
        exists res, res ∈ List.concat collectors
                    /\ is_test_function res = true
                    /\ id = re_sub_brackets (item_nodeid res)).
Proof.
  assert (P : fst (collect_tests I g collectors random seed max_tests)
                `prefix_of` fst (collect_tests I g collectors random seed None)).
  { rewrite collect_capped. destruct max_tests as [n|]; [|reflexivity].
    destruct (n =? 0)%Z; [reflexivity | apply slice_to_prefix]. }
  assert (N : NoDup (fst (collect_tests I g collectors random seed None))).
  { rewrite collect_uncapped_Permutation. apply iter_set_NoDup. }
  split; [exact P|]. split.
  - apply (sublist_NoDup _ _ N). destruct P as [k ->]. now apply sublist_inserts_r.
  - intros id Hid.
    assert (H : id ∈ fst (collect_tests I g collectors random seed None)).
    { destruct P as [k ->]. apply elem_of_app. now left. }
    rewrite collect_uncapped_Permutation in H. apply iter_set_elem in H.
    unfold canonical_ids in H. apply list_elem_of_In in H.
    apply in_map_iff in H as (nodeid & <- & H).
    apply in_map_iff in H as (res & <- & H).
    apply filter_In in H as [H1 H2].
    exists res. split; [now apply list_elem_of_In | auto].
Qed.

(** X10.  The number of identifiers returned: all of them for no cap or a
    cap of zero, the cap or all of them, whichever is less, for a positive
    cap, and all but the last [-n] (or none) for a negative cap [n]. *)
Theorem collect_tests_length (I : Interpreter) (g : rng I)
    (collectors : list (list CollectItem)) (random : bool) (seed : Z) (n : Z) :
  let total := List.length (iter_set I (canonical_ids collectors)) in
  List.length (fst (collect_tests I g collectors random seed None)) = total
  /\ List.length (fst (collect_tests I g collectors random seed (Some n)))
     = if (n =? 0)%Z then total
       else if (0 <? n)%Z then Nat.min (Z.to_nat n) total
       else total - Z.to_nat (- n).
Proof.
  cbv zeta.
  assert (L : List.length (fst (collect_tests I g collectors random seed None))
              = List.length (iter_set I (canonical_ids collectors)))
    by now rewrite collect_uncapped_Permutation.
  split; [exact L|]. rewrite collect_capped.
  destruct (Z.eqb_spec n 0); [exact L|].
  unfold slice_to. destruct (Z.ltb_spec 0 n).
  - destruct (Z.leb_spec 0 n); [|lia]. now rewrite length_take, L.
  - destruct (Z.leb_spec 0 n); [lia|]. rewrite length_take, L. lia.
Qed.


(** *** Canonical identifiers *)

Lemma close_index_strip (r : string) :
  close_index r = None -> close_index (strip_from 0 r) = None.
Proof.
  induction r as [|c r IH]; [reflexivity|]. cbn [close_index strip_from].
  destruct (Ascii.eqb c "]") eqn:E1; [discriminate|].
  destruct (Ascii.eqb c newline) eqn:E2.
  - intros _. destruct (Ascii.eqb c "[") eqn:E3.
    + apply Ascii.eqb_eq in E2, E3. subst c. discriminate E3.
    + cbn [close_index]. now rewrite E1, E2.
  - intros H. destruct (close_index r) as [n|] eqn:C; [discriminate H|].
    specialize (IH eq_refl).
    destruct (Ascii.eqb c "["); cbn [close_index]; now rewrite E1, E2, IH.
Qed.

Lemma strip_settled (s : string) : forall k, settled (strip_from k s) = true.
Proof.
  induction s as [|c s IH]; intros k; [reflexivity|]. cbn [strip_from].
  destruct k as [|k]; [|apply IH].
  destruct (Ascii.eqb c "[") eqn:E.
  - destruct (close_index s) as [n|] eqn:C; [apply IH|].
    cbn [settled]. now rewrite E, (close_index_strip s C), IH.
  - cbn [settled]. now rewrite E, IH.
Qed.

Lemma settled_fixed (s : string) : settled s = true -> strip_from 0 s = s.
Proof.
  induction s as [|c s IH]; [reflexivity|]. cbn [settled strip_from].
  destruct (Ascii.eqb c "[").
  - destruct (close_index s); [discriminate|]. intros H. now rewrite IH.
  - intros H. now rewrite IH.
Qed.

(** X11.  Removing the bracketed spans is idempotent: a canonical identifier
    is left as it is when it is made canonical again, as [trace_test]'s
    report and [collect_tests] both do. *)
Theorem re_sub_brackets_idempotent (s : string) :
  re_sub_brackets (re_sub_brackets s) = re_sub_brackets s.
Proof. unfold re_sub_brackets. apply settled_fixed, strip_settled. Qed.

(** X12.  The parametrized variants of one test function are returned as one
    identifier: for a function item whose node id is [s[p]], with no left
    bracket in [s] and no right bracket or line feed in [p], the list
    returned without a cap holds [s], once. *)
Theorem collect_tests_merges_variants (I : Interpreter) (g : rng I)
    (collectors : list (list CollectItem)) (random : bool) (seed : Z)
    (res : CollectItem) (s p : string) :
  res ∈ List.concat collectors -> is_test_function res = true ->
  item_nodeid res = s +:+ bracketed (Some p) ->
  no_bracket s = true -> simple_params (Some p) = true ->
  List.count_occ string_dec
    (fst (collect_tests I g collectors random seed None)) s = 1.
Proof.
  intros Hin Hf Hid Hs Hp.
  apply NoDup_count_occ'.
  - apply NoDup_ListNoDup. rewrite collect_uncapped_Permutation. apply iter_set_NoDup.
  - apply list_elem_of_In. rewrite collect_uncapped_Permutation.
    apply iter_set_elem. unfold canonical_ids. apply list_elem_of_In.
    apply in_map_iff. exists (item_nodeid res). split.
    + rewrite Hid. unfold re_sub_brackets.
      rewrite (strip_no_bracket _ _ Hs), (strip_bracketed _ Hp). apply append_empty_r.
    + apply in_map. apply filter_In. split; [now apply list_elem_of_In | exact Hf].
Qed.

Lemma collect_tests_merges_variants_witness :
  mkItem "Function" "tests/test_a.py::test_f[1-2]" ∈ List.concat sample_report
  /\ List.count_occ string_dec
       (fst (collect_tests sample_interpreter 0%Z sample_report true 42 None))
       "tests/test_a.py::test_f" = 1.
Proof.
  assert (H : mkItem "Function" "tests/test_a.py::test_f[1-2]"
              ∈ List.concat sample_report).
  { apply list_elem_of_In. cbn. auto. }
  split; [exact H|].
  exact (collect_tests_merges_variants sample_interpreter 0%Z sample_report
           true 42 (mkItem "Function" "tests/test_a.py::test_f[1-2]")
           "tests/test_a.py::test_f" "1-2" H eq_refl eq_refl eq_refl eq_refl).
Defined.

(** *** One test: when a record is produced *)

(** X14.  [trace_test] returns a record exactly when the scratch directory
    could be made and removed, the subprocess exited with 0, the report
    was read and its first test is "passed", the trace was read, and the
    function id could be built; the record then carries the test id that
    was passed in, that function id and the trace as read. *)
Theorem trace_test_record_iff (w : TestRun) (test : string) (r : TraceRecord) :
  trace_test w test = Ok (Some r) <->
  tmpdir_create w = Ok tt /\ subprocess_run w = Exited 0
  /\ tmpdir_cleanup w = Ok tt
  /\ exists rep ts tr trace id,
       load_report w = Ok rep /\ getitem rep "tests" = Ok ts
       /\ getitem0 ts = Ok tr /\ getitem tr "outcome" = Ok (JStr "passed")
       /\ load_trace w = Ok trace /\ get_test_func_id tr = Ok id
       /\ r = {| test_id := test; test_func_id := id; call_relations := trace |}.
Proof.
  split.
  - unfold trace_test, try_except, trace_test_body, with_tmpdir, with_body,
      run_trace_test, bind.
    destruct (tmpdir_create w) as [[]|]; [|discriminate].
    destruct (subprocess_run w) as [|rc];
      [destruct (tmpdir_cleanup w); discriminate|].
    destruct (Z.eqb_spec rc 0) as [->|];
      [|destruct (tmpdir_cleanup w); discriminate].
    destruct (load_report w) as [rep|] eqn:R;
      [|destruct (tmpdir_cleanup w); discriminate].
    destruct (getitem rep "tests") as [ts|] eqn:T;
      [|destruct (tmpdir_cleanup w); discriminate].
    destruct (getitem0 ts) as [tr|] eqn:T0;
      [|destruct (tmpdir_cleanup w); discriminate].
    destruct (getitem tr "outcome") as [o|] eqn:O;
      [|destruct (tmpdir_cleanup w); discriminate].
    destruct (is_passed o) eqn:P; cbn [negb];
      [|destruct (tmpdir_cleanup w); discriminate].
    destruct (load_trace w) as [trace|] eqn:LT;
      [|destruct (tmpdir_cleanup w); discriminate].
    destruct (tmpdir_cleanup w) as [[]|]; [|discriminate].
    destruct (get_test_func_id tr) as [id|] eqn:G; [|discriminate].
    intros [= <-]. repeat split.
    exists rep, ts, tr, trace, id. repeat split; auto.
    destruct o; try discriminate P. apply String.eqb_eq in P. now subst.
  - intros (H1 & H2 & H3 & rep & ts & tr & trace & id & H4 & H5 & H6 & H7 & H8 & H9 & ->).
    now apply (trace_test_passed w test rep ts tr trace id).
Qed.

(** *** The batch: whose records, in which order *)

Lemma trace_test_id (w : TestRun) (test : string) (r : TraceRecord) :
  trace_test w test = Ok (Some r) -> test_id r = test.
Proof. intros H. apply trace_test_record_iff in H. now destruct H as (_ & _ & _ & ? & ? & ? & ? & ? & _ & _ & _ & _ & _ & _ & ->). Qed.

(** X15.  The corpus holds at most one record for each completed test, in
    the order of completion: the test ids of its records are the
    completed tests with some left out, and every record belongs to a
    test whose subprocess exited with 0 and whose report says "passed". *)
Theorem corpus_follows_completion (world : string -> TestRun)
    (completed : list string) (corpus : list TraceRecord) :
  generate_test_traces world completed = Ok corpus ->
  map test_id corpus `sublist_of` completed
  /\ List.length corpus <= List.length completed
  /\ (forall r, r ∈ corpus ->
        subprocess_run (world (test_id r)) = Exited 0
        /\ reported_outcome (world (test_id r)) = Ok (JStr "passed")
        /\ load_trace (world (test_id r)) = Ok (call_relations r)).
Proof.
  rewrite generate_test_traces_ok. intros [= <-].
  assert (S : map test_id (non_empty_results world completed) `sublist_of` completed).
  { unfold non_empty_results. induction completed as [|t rest IH]; [constructor|].
    cbn [flat_map]. destruct (trace_test (world t) t) as [[r|]|] eqn:E.
    - cbn [app map]. rewrite (trace_test_id _ _ _ E). now constructor.
    - now constructor.
    - now constructor. }
  split; [exact S|]. split.
  - apply sublist_length in S. now rewrite length_map in S.
  - intros r Hr. unfold non_empty_results in Hr.
    apply list_elem_of_In, in_flat_map in Hr as (t & _ & Hr).
    destruct (trace_test (world t) t) as [[r'|]|] eqn:E; try now destruct Hr.
    destruct Hr as [->|[]].
    pose proof (trace_test_id _ _ _ E) as Hid. rewrite Hid.
    apply trace_test_record_iff in E
      as (_ & H2 & _ & rep & ts & tr & trace & id & H4 & H5 & H6 & H7 & H8 & _ & ->).
    split; [exact H2|]. split; [|exact H8].
    unfold reported_outcome, bind. now rewrite H4, H5, H6.
Qed.

Lemma corpus_follows_completion_witness :
  generate_test_traces sample_world
    [ "tests/test_b.py::test_slow"; "tests/test_a.py::test_ok" ]
  = Ok [ {| test_id := "tests/test_a.py::test_ok";
            test_func_id := "tests/test_a.py:10:test_ok";
            call_relations := sample_trace |} ]
  /\ map test_id
       [ {| test_id := "tests/test_a.py::test_ok";
            test_func_id := "tests/test_a.py:10:test_ok";
            call_relations := sample_trace |} ]
     `sublist_of` [ "tests/test_b.py::test_slow"; "tests/test_a.py::test_ok" ].
Proof.
  split; [reflexivity|].
  exact (proj1 (corpus_follows_completion sample_world
                  [ "tests/test_b.py::test_slow"; "tests/test_a.py::test_ok" ]
                  _ eq_refl)).
Defined.

(** *** Clearing the caches *)

(** X16.  After [clear_python_cache] no directory named [__pycache__] or
    [.pytest_cache] is left anywhere below the root. *)
Theorem clear_python_cache_clean (root : node) :
  has_cache_dir (clear_python_cache root) = false.
Proof.
  induction root as [|es IH] using node_induction; [reflexivity|].
  cbn [clear_python_cache has_cache_dir].
  induction es as [|[name [|sub]] rest IHes]; [reflexivity| |].
  - cbn [walk any_cache]. apply IHes. now inversion IH.
  - inversion IH as [|? ? Hsub Hrest]; subst. cbn [snd] in Hsub.
    cbn [walk]. destruct (is_cache_name name) eqn:C; [now apply IHes|].
    cbn [any_cache]. cbn [clear_python_cache] in Hsub |- *.
    rewrite C, Hsub. cbn [orb]. now apply IHes.
Qed.

(** X17.  [clear_python_cache] is idempotent. *)
Theorem clear_python_cache_idempotent (root : node) :
  clear_python_cache (clear_python_cache root) = clear_python_cache root.
Proof.
  induction root as [|es IH] using node_induction; [reflexivity|].
  cbn [clear_python_cache]. f_equal.
  induction es as [|[name [|sub]] rest IHes]; [reflexivity| |].
  - cbn [walk]. f_equal. apply IHes. now inversion IH.
  - inversion IH as [|? ? Hsub Hrest]; subst. cbn [snd] in Hsub.
    cbn [walk]. destruct (is_cache_name name) eqn:C; [now apply IHes|].
    cbn [clear_python_cache] in Hsub |- *. cbn [walk]. rewrite C.
    f_equal; [|now apply IHes]. f_equal. exact Hsub.
Qed.

Lemma assoc_node_clear_keep (name : string) (es : list (string * node)) :
  is_cache_name name = false ->
  assoc_node name (walk clear_python_cache es)
  = option_map clear_python_cache (assoc_node name es).
Proof.
  intros Hn. induction es as [|[name' [|sub]] rest IH]; [reflexivity| |]; cbn [walk].
  - cbn [assoc_node]. destruct (String.eqb name name'); [reflexivity | exact IH].
  - destruct (is_cache_name name') eqn:C.
    + cbn [assoc_node]. destruct (String.eqb_spec name name') as [E|_];
        [congruence | exact IH].
    + cbn [assoc_node]. destruct (String.eqb name name'); [reflexivity | exact IH].
Qed.

Lemma assoc_node_clear_file (name : string) (es : list (string * node)) :
  assoc_node name es = Some File ->
  assoc_node name (walk clear_python_cache es) = Some File.
Proof.
  induction es as [|[name' [|sub]] rest IH]; [discriminate| |]; cbn [assoc_node walk].
  - destruct (String.eqb name name'); [reflexivity | exact IH].
  - destruct (String.eqb name name') eqn:E; [discriminate|]. intros H.
    destruct (is_cache_name name'); [now apply IH|].
    cbn [assoc_node]. rewrite E. now apply IH.
Qed.

(** X18.  What lies outside the caches is kept: a path none of whose
    components is a cache name leads, after clearing, to the cleared
    version of what it led to before. *)
Theorem clear_python_cache_keeps (path : list string) : forall root,
  forallb (fun name => negb (is_cache_name name)) path = true ->
  find path (clear_python_cache root)
  = option_map clear_python_cache (find path root).
Proof.
  induction path as [|name rest IH]; intros root H; [reflexivity|].
  cbn [forallb] in H. apply andb_prop in H as [Hn Hrest].
  apply negb_true_iff in Hn.
  destruct root as [|es]; [reflexivity|].
  cbn [clear_python_cache find]. rewrite (assoc_node_clear_keep _ _ Hn).
  destruct (assoc_node name es) as [n|]; [|reflexivity]. cbn [option_map].
  now apply IH.
Qed.

(** X19.  No file is removed, whatever its name, unless it lies in a cache
    directory: a file reached through directories that are not caches is
    still there, even when the file itself is named like a cache. *)
Theorem clear_python_cache_keeps_files (dirs : list string) (name : string) :
  forall root,
  forallb (fun d => negb (is_cache_name d)) dirs = true ->
  find (dirs ++ [name]) root = Some File ->
  find (dirs ++ [name]) (clear_python_cache root) = Some File.
Proof.
  induction dirs as [|d dirs IH]; intros root H F.
  - cbn [app find] in *. destruct root as [|es]; [discriminate|].
    cbn [clear_python_cache].
    destruct (assoc_node name es) as [[|sub]|] eqn:A; try discriminate.
    now rewrite (assoc_node_clear_file _ _ A).
  - cbn [forallb] in H. apply andb_prop in H as [Hd Hdirs].
    apply negb_true_iff in Hd.
    cbn [app find] in *. destruct root as [|es]; [discriminate|].
    cbn [clear_python_cache]. rewrite (assoc_node_clear_keep _ _ Hd).
    destruct (assoc_node d es) as [n|]; [|discriminate]. cbn [option_map].
    now apply IH.
Qed.

Lemma clear_python_cache_keeps_witness :
  forallb (fun name => negb (is_cache_name name)) [ "pkg"; "h.py" ] = true
  /\ find [ "pkg"; "h.py" ] (clear_python_cache sample_tree) = Some File
  /\ find [ "pkg"; "__pycache__" ] (clear_python_cache sample_tree) = None.
Proof.
  split; [reflexivity|]. split; [|reflexivity].
  rewrite (clear_python_cache_keeps [ "pkg"; "h.py" ] sample_tree eq_refl).
  reflexivity.
Defined.

Lemma clear_python_cache_keeps_files_witness :
  forallb (fun d => negb (is_cache_name d)) [ "data" ] = true
  /\ find ([ "data" ] ++ [ "__pycache__" ]) sample_tree = Some File
  /\ find ([ "data" ] ++ [ "__pycache__" ]) (clear_python_cache sample_tree)
     = Some File.
Proof.
  split; [reflexivity|]. split; [reflexivity|].
  exact (clear_python_cache_keeps_files [ "data" ] "__pycache__" sample_tree
           eq_refl eq_refl).
Defined.

(** X20.  [run_pytest] clears the caches before it looks at the return code:
    whether it returns or raises, no cache directory is left, and it
    raises exactly when the return code is not 0. *)
Theorem run_pytest_clears (subprocess : node -> node * Z) (cwd : node) :
  has_cache_dir (fst (run_pytest subprocess cwd)) = false
  /\ fst (run_pytest subprocess cwd) = clear_python_cache (fst (subprocess cwd))
  /\ (snd (run_pytest subprocess cwd) = Ok tt <-> snd (subprocess cwd) = 0%Z)
  /\ (snd (run_pytest subprocess cwd) = Raise PytestFailed
      <-> snd (subprocess cwd) <> 0%Z).
Proof.
  unfold run_pytest. destruct (subprocess cwd) as [tree rc]. cbn [fst snd].
  destruct (Z.eqb_spec rc 0) as [->|N]; cbn [negb fst snd].
  - split; [apply clear_python_cache_clean|]. split; [reflexivity|].
    split; split; try easy.
  - split; [apply clear_python_cache_clean|]. split; [reflexivity|].
    split; split; try easy.
Qed.


(** *** Reading the discovery report *)

Lemma scan_results_items (results : list json) (c : list CollectItem) :
  Forall2 is_item results c -> forall tests,
  scan_results results tests
  = Ok (tests ++ List.map (fun res => JStr (item_nodeid res))
                   (List.filter is_test_function c)).
Proof.
  induction 1 as [|v res results c [Ht Hn] _ IH]; intros tests.
  - cbn. now rewrite app_nil_r.
  - cbn [scan_results]. rewrite Ht. cbn [bind].
    change (is_function_type (JStr (item_type res))) with (is_test_function res).
    cbn [List.filter]. destruct (is_test_function res); cbn [negb].
    + rewrite Hn. cbn [bind]. rewrite IH. f_equal.
      rewrite <- (app_assoc tests). reflexivity.
    + apply IH.
Qed.

Lemma scan_collectors_items (collectors : list json) (cs : list (list CollectItem)) :
  Forall2 is_collector collectors cs -> forall tests,
  scan_collectors collectors tests
  = Ok (tests ++ List.map (fun res => JStr (item_nodeid res))
                   (List.filter is_test_function (List.concat cs))).
Proof.
  induction 1 as [|v c collectors cs (results & Hr & Hitems) _ IH]; intros tests.
  - cbn. now rewrite app_nil_r.
  - cbn [scan_collectors]. rewrite Hr. cbn [bind iterate].
    rewrite (scan_results_items _ _ Hitems). cbn [bind]. rewrite IH.
    cbn [List.concat]. f_equal.
    now rewrite List.filter_app, List.map_app, <- (app_assoc tests).
Qed.

Lemma canonical_all_strings (ids : list string) :
  canonical_all (List.map JStr ids) = Ok (List.map re_sub_brackets ids).
Proof. induction ids as [|s ids IH]; cbn; [reflexivity | now rewrite IH]. Qed.

(** X13.  On a report that carries items, the loops of [collect_tests] yield
    the canonical identifiers of the items whose type is [Function] or
    [TestCaseFunction], in the order of the report; whatever else the
    report, its collectors and its items hold is not looked at. *)
Theorem read_report_well_formed (report : json)
    (collectors : list (list CollectItem)) :
  is_report report collectors ->
  read_report report = Ok (canonical_ids collectors).
Proof.
  intros (l & Hc & Hl). unfold read_report. rewrite Hc. cbn [bind iterate].
  rewrite (scan_collectors_items _ _ Hl). cbn [app bind].
  unfold canonical_ids. rewrite <- canonical_all_strings, List.map_map.
  reflexivity.
Qed.

Lemma report_json_is_report (collectors : list (list CollectItem)) :
  is_report (report_json collectors) collectors.
Proof.
  exists (List.map collector_json collectors). split; [reflexivity|].
  induction collectors as [|c cs IH]; constructor; [|exact IH].
  exists (List.map item_json c). split; [reflexivity|].
  induction c as [|res c IHc]; constructor; [|exact IHc].
  split; reflexivity.
Qed.

Lemma read_report_well_formed_witness :
  is_report (report_json sample_report) sample_report
  /\ read_report (report_json sample_report)
     = Ok [ "tests/test_a.py::test_f"; "tests/test_a.py::test_f";
            "tests/test_a.py::test_g"; "tests/test_b.py::TestB::test_h";
            "tests/test_b.py::test_i"; "tests/test_b.py::test_j" ].
Proof.
  split; [apply report_json_is_report|].
  exact (read_report_well_formed (report_json sample_report) sample_report
           (report_json_is_report sample_report)).
Defined.

End TraceMoreFacts.
